(** * ds-ai-sourcer: the JSON clean-up and fallback utilities

    A shallow embedding of the string clean-up, JSON repair and
    try/catch-with-fallback code of [src/utils/aiUtils.ts],
    [src/utils/jobExtraction.ts], [src/utils/campaignAssistantAI.ts] and
    [src/utils/openai.ts], with the properties the specification states
    about them.

    JavaScript strings are sequences of UTF-16 code units; a code unit is
    an [N].  Regular expressions are embedded as syntax trees run by a
    backtracking matcher that follows the ECMAScript matching order. *)

From Stdlib Require Import String Ascii.
From Stdlib Require Import List NArith ZArith Bool Lia Arith.
Import ListNotations.

(** ** JavaScript strings *)

Module JS.

Definition char := N.
Definition jstring := list char.

(** A literal of the source, as code units. *)
Definition str (s : string) : jstring :=
  List.map N_of_ascii (list_ascii_of_string s).

Definition chr (a : ascii) : char := N_of_ascii a.

Fixpoint jstring_eqb (s t : jstring) : bool :=
  match s, t with
  | [], [] => true
  | x :: s', y :: t' => N.eqb x y && jstring_eqb s' t'
  | _, _ => false
  end.

(** ECMAScript WhiteSpace and LineTerminator code points: what [\s]
    matches and what [trim] removes. *)
Definition is_space (c : char) : bool :=
  ((9 <=? c) && (c <=? 13) || (c =? 32) || (c =? 160) || (c =? 5760)
   || (8192 <=? c) && (c <=? 8202) || (c =? 8232) || (c =? 8233)
   || (c =? 8239) || (c =? 8287) || (c =? 12288) || (c =? 65279))%N.

(** [\w]: ASCII letters, digits and underscore. *)
Definition is_word (c : char) : bool :=
  ((48 <=? c) && (c <=? 57) || (65 <=? c) && (c <=? 90)
   || (97 <=? c) && (c <=? 122) || (c =? 95))%N.

(** LineTerminator: what [.] refuses without the [s] flag. *)
Definition is_line_terminator (c : char) : bool :=
  ((c =? 10) || (c =? 13) || (c =? 8232) || (c =? 8233))%N.

(** Canonicalize of a case-insensitive, non-unicode RegExp, on the
    patterns of this program: every pattern character is ASCII, and no
    code unit above 127 canonicalizes to an ASCII one, so only the ASCII
    letters are folded. *)
Definition canonicalize (ignoreCase : bool) (c : char) : char :=
  if ignoreCase && (97 <=? c)%N && (c <=? 122)%N then (c - 32)%N else c.

(** [String.prototype.trim] *)
Fixpoint trimStart (s : jstring) : jstring :=
  match s with
  | c :: s' => if is_space c then trimStart s' else s
  | [] => []
  end.

Definition trimEnd (s : jstring) : jstring := rev (trimStart (rev s)).

Definition trim (s : jstring) : jstring := trimEnd (trimStart s).

(** [s.indexOf(c)] for a one-character needle: [None] stands for -1. *)
Fixpoint indexOf (c : char) (s : jstring) : option nat :=
  match s with
  | [] => None
  | x :: s' =>
      if N.eqb x c then Some 0
      else match indexOf c s' with Some i => Some (S i) | None => None end
  end.

(** [s.lastIndexOf(c)] for a one-character needle. *)
Fixpoint lastIndexOf (c : char) (s : jstring) : option nat :=
  match s with
  | [] => None
  | x :: s' =>
      match lastIndexOf c s' with
      | Some i => Some (S i)
      | None => if N.eqb x c then Some 0 else None
      end
  end.

(** [s.substring(i, j)] for [i <= j] (the only use in the source). *)
Definition substring (i j : nat) (s : jstring) : jstring :=
  firstn (j - i) (skipn i s).

(** [s.slice(1, -1)] *)
Definition slice_1_m1 (s : jstring) : jstring :=
  removelast (tl s).

(** [hay.includes(needle)] *)
Fixpoint starts_with (p s : jstring) : bool :=
  match p, s with
  | [], _ => true
  | x :: p', y :: s' => N.eqb x y && starts_with p' s'
  | _ :: _, [] => false
  end.

Fixpoint includes (needle hay : jstring) : bool :=
  starts_with needle hay ||
  match hay with
  | [] => false
  | _ :: hay' => includes needle hay'
  end.

(** [s.replace(needle, rep)] with a string pattern: the first occurrence. *)
Fixpoint replace_str (needle rep s : jstring) : jstring :=
  if starts_with needle s then rep ++ skipn (length needle) s
  else match s with
       | [] => []
       | x :: s' => x :: replace_str needle rep s'
       end.

(** [s.split(sep)] for a one-character separator. *)
Fixpoint split (sep : char) (s : jstring) : list jstring :=
  match s with
  | [] => [[]]
  | x :: s' =>
      if N.eqb x sep then [] :: split sep s'
      else match split sep s' with
           | p :: ps => (x :: p) :: ps
           | [] => [[x]]
           end
  end.

(** The decimal digits of a natural number, as [`${n}`] prints them. *)
Fixpoint digits_of (fuel n : nat) (acc : jstring) : jstring :=
  match fuel with
  | 0 => acc
  | S fuel' =>
      let acc' := (48 + N.of_nat (n mod 10))%N :: acc in
      if n / 10 =? 0 then acc' else digits_of fuel' (n / 10) acc'
  end.

Definition nat_to_str (n : nat) : jstring := digits_of (S n) n [].

Definition newline : char := 10%N.

(** [s] is [t] with some characters deleted. *)
Inductive subseq : jstring -> jstring -> Prop :=
| subseq_nil : subseq [] []
| subseq_skip x s t : subseq s t -> subseq s (x :: t)
| subseq_keep x s t : subseq s t -> subseq (x :: s) (x :: t).

End JS.
Import JS.

(** ** Regular expressions *)

Module RegExp.

Inductive citem : Type :=
| CChar (c : char)   (* a literal member *)
| CWord              (* \w *)
| CSpace.            (* \s *)

Inductive regex : Type :=
| Eps
| Chr (c : char)                       (* a literal character *)
| Class (negated : bool) (items : list citem)  (* [...], [^...], \s, \w *)
| Dot                                  (* . *)
| Seq (r1 r2 : regex)
| Star (greedy : bool) (r : regex)     (* r* and r*? *)
| Group (k : nat) (r : regex)          (* the k-th capturing group *)
| Lookahead (r : regex)                (* (?=r) *)
| Bol                                  (* ^ without the m flag *)
| Eol                                  (* $ without the m flag *)
| WordBoundary.                        (* \b *)

Record flags : Type := { ignoreCase : bool; dotAll : bool }.

Definition no_flags : flags := {| ignoreCase := false; dotAll := false |}.
Definition flag_i : flags := {| ignoreCase := true; dotAll := false |}.
Definition flag_is : flags := {| ignoreCase := true; dotAll := true |}.

(** Captures: group number to captured text, most recent first. *)
Definition caps := list (nat * jstring).

Fixpoint capture (k : nat) (c : caps) : option jstring :=
  match c with
  | [] => None
  | (k', s) :: c' => if Nat.eqb k k' then Some s else capture k c'
  end.

(** A matcher state: the input before the current position (reversed),
    the input from the current position on, and the captures. *)
Definition mstate := (jstring * jstring * caps)%type.

Definition item_accepts (fl : flags) (it : citem) (x : char) : bool :=
  match it with
  | CChar c => N.eqb (canonicalize (ignoreCase fl) x) (canonicalize (ignoreCase fl) c)
  | CWord => is_word x
  | CSpace => is_space x
  end.

Definition class_accepts (fl : flags) (negated : bool) (items : list citem)
    (x : char) : bool :=
  xorb negated (existsb (fun it => item_accepts fl it x) items).

Definition is_word_at (s : jstring) : bool :=
  match s with
  | x :: _ => is_word x
  | [] => false
  end.

(** RepeatMatcher with min 0 and no max: an iteration that consumes
    nothing is refused, so every iteration shortens the remaining input
    and [S (length a)] iterations are never exhausted.  No pattern of
    the program has a capturing group under a star, so the clearing of
    the inner captures at the start of an iteration has nothing to
    clear. *)
Fixpoint star_iter (step : mstate -> list mstate) (greedy : bool)
    (fuel : nat) (st : mstate) : list mstate :=
  match fuel with
  | 0 => [st]
  | S fuel' =>
      let more :=
        flat_map
          (fun st' =>
             if length (snd (fst st')) <? length (snd (fst st))
             then star_iter step greedy fuel' st'
             else [])
          (step st) in
      if greedy then more ++ [st] else st :: more
  end.

(** All the ways [r] matches at the state, in the order a backtracking
    matcher tries them: the head is the match ECMAScript reports. *)
Fixpoint rmatch (fl : flags) (r : regex) (st : mstate) : list mstate :=
  let '(b, a, c) := st in
  match r with
  | Eps => [st]
  | Chr ch =>
      match a with
      | x :: a' =>
          if N.eqb (canonicalize (ignoreCase fl) x) (canonicalize (ignoreCase fl) ch)
          then [(x :: b, a', c)] else []
      | [] => []
      end
  | Class negated items =>
      match a with
      | x :: a' =>
          if class_accepts fl negated items x then [(x :: b, a', c)] else []
      | [] => []
      end
  | Dot =>
      match a with
      | x :: a' =>
          if dotAll fl || negb (is_line_terminator x)
          then [(x :: b, a', c)] else []
      | [] => []
      end
  | Seq r1 r2 => flat_map (rmatch fl r2) (rmatch fl r1 st)
  | Star greedy r' => star_iter (rmatch fl r') greedy (S (length a)) st
  | Group k r' =>
      List.map
        (fun st' : mstate =>
           let '(b', a', c') := st' in
           (b', a', (k, firstn (length a - length a') a) :: c'))
        (rmatch fl r' st)
  | Lookahead r' =>
      match rmatch fl r' st with
      | (_, _, c') :: _ => [(b, a, c')]
      | [] => []
      end
  | Bol => match b with [] => [st] | _ :: _ => [] end
  | Eol => match a with [] => [st] | _ :: _ => [] end
  | WordBoundary =>
      if xorb (is_word_at b) (is_word_at a) then [st] else []
  end.

(** A match found by [exec]: the text skipped before it, the matched
    text, the captures, and the matcher state at its end. *)
Record rmatch_result : Type := {
  m_pre : jstring;
  m_text : jstring;
  m_caps : caps;
  m_before : jstring;
  m_after : jstring
}.

(** RegExpBuiltinExec from the current position: the leftmost position
    where [r] matches, with the first match there. *)
Fixpoint exec_from (fl : flags) (r : regex) (pre b a : jstring)
    : option rmatch_result :=
  match rmatch fl r (b, a, []) with
  | (b1, a1, c) :: _ =>
      Some {| m_pre := rev pre;
              m_text := firstn (length a - length a1) a;
              m_caps := c; m_before := b1; m_after := a1 |}
  | [] =>
      match a with
      | [] => None
      | x :: a' => exec_from fl r (x :: pre) (x :: b) a'
      end
  end.

(** [s.match(r)] for a RegExp without the g flag. *)
Definition exec (fl : flags) (r : regex) (s : jstring) : option rmatch_result :=
  exec_from fl r [] [] s.

(** The matches a global RegExp finds from left to right; after an empty
    match lastIndex advances by one code unit.  Returns the matches (each
    with the unmatched text before it) and the unmatched tail. *)
Fixpoint scan_from (fuel : nat) (fl : flags) (r : regex) (pend b a : jstring)
    : list rmatch_result * jstring :=
  match fuel with
  | 0 => ([], rev pend ++ a)
  | S fuel' =>
      match exec_from fl r pend b a with
      | None => ([], rev pend ++ a)
      | Some m =>
          let '(rest, tail) :=
            match m_text m, m_after m with
            | [], x :: a2 => scan_from fuel' fl r [x] (x :: m_before m) a2
            | [], [] => ([], [])
            | _ :: _, a1 => scan_from fuel' fl r [] (m_before m) a1
            end in
          (m :: rest, tail)
      end
  end.

Definition scan (fl : flags) (r : regex) (s : jstring)
    : list rmatch_result * jstring :=
  scan_from (S (length s)) fl r [] [] s.

(** [s.replace(r, f)] for a RegExp without the g flag. *)
Definition replace_first (fl : flags) (r : regex)
    (f : rmatch_result -> jstring) (s : jstring) : jstring :=
  match exec fl r s with
  | None => s
  | Some m => m_pre m ++ f m ++ m_after m
  end.

(** [s.replace(r, f)] for a RegExp with the g flag. *)
Definition replace_all (fl : flags) (r : regex)
    (f : rmatch_result -> jstring) (s : jstring) : jstring :=
  let '(ms, tail) := scan fl r s in
  concat (List.map (fun m => m_pre m ++ f m) ms) ++ tail.

(** [s.match(r)] for a RegExp with the g flag: the matched texts, or
    null when there is none. *)
Definition match_all (fl : flags) (r : regex) (s : jstring)
    : option (list jstring) :=
  match fst (scan fl r s) with
  | [] => None
  | ms => Some (List.map m_text ms)
  end.

(** Pattern building blocks. *)
Fixpoint lit (s : jstring) : regex :=
  match s with
  | [] => Eps
  | [c] => Chr c
  | c :: s' => Seq (Chr c) (lit s')
  end.

Fixpoint seqs (rs : list regex) : regex :=
  match rs with
  | [] => Eps
  | [r] => r
  | r :: rs' => Seq r (seqs rs')
  end.

Definition ws_star : regex := Star true (Class false [CSpace]).   (* \s* *)

(** What a global replacement of the one-character pattern [c] by [rep]
    does to a character. *)
Definition subst_char (c : char) (rep : jstring) (x : char) : jstring :=
  if N.eqb x c then rep else [x].

(** *** What a pattern can match, read off its syntax *)

(** The capturing groups every match of the pattern sets: those not
    under a star. *)
Fixpoint binds (k : nat) (r : regex) : bool :=
  match r with
  | Group k' r' => Nat.eqb k k' || binds k r'
  | Seq r1 r2 => binds k r1 || binds k r2
  | Lookahead r' => binds k r'
  | _ => false
  end.

(** The characters a match of the pattern can consume. *)
Fixpoint accepts (fl : flags) (r : regex) (x : char) : bool :=
  match r with
  | Chr ch =>
      N.eqb (canonicalize (ignoreCase fl) x) (canonicalize (ignoreCase fl) ch)
  | Class negated items => class_accepts fl negated items x
  | Dot => dotAll fl || negb (is_line_terminator x)
  | Seq r1 r2 => accepts fl r1 x || accepts fl r2 x
  | Star _ r' => accepts fl r' x
  | Group _ r' => accepts fl r' x
  | _ => false
  end.

(** The patterns whose last item is [$]. *)
Fixpoint ends_at_eol (r : regex) : bool :=
  match r with
  | Eol => true
  | Seq _ r2 => ends_at_eol r2
  | _ => false
  end.

(** [st'] is reached from [st] by consuming the text [m]. *)
Definition consumed (f : char -> bool) (st st' : mstate) : Prop :=
  exists m, snd (fst st) = m ++ snd (fst st')
            /\ fst (fst st') = rev m ++ fst (fst st)
            /\ forallb f m = true.

Definition has_capture (k : nat) (st : mstate) : Prop :=
  capture k (snd st) <> None.

End RegExp.
Import RegExp.

(** ** JavaScript values, exceptions and the runtime's built-ins *)

Module Value.

Set Implicit Arguments.

Section Values.
Variable num : Type.

Unset Elimination Schemes.
Inductive value : Type :=
| VUndefined
| VNull
| VBool (b : bool)
| VNum (n : num)
| VStr (s : jstring)
| VArr (items : list value)
| VObj (props : list (jstring * value)).
Set Elimination Schemes.

Inductive error_kind : Type := PlainError | TypeError | SyntaxError.

(** What a [throw] carries: an Error object of some class with its
    message, or any other value (a rejected promise may carry one). *)
Inductive exn : Type :=
| JsError (kind : error_kind) (message : jstring)
| JsThrown (v : value).

(** A computation that may throw. *)
Definition result (A : Type) : Type := (exn + A)%type.

Definition ret {A} (x : A) : result A := inr x.
Definition throw {A} (e : exn) : result A := inl e.

Definition bind {A B} (m : result A) (k : A -> result B) : result B :=
  match m with
  | inl e => inl e
  | inr x => k x
  end.

(** [try { body } catch (e) { handler(e) }] *)
Definition try_catch {A} (body : result A) (handler : exn -> result A)
    : result A :=
  match body with
  | inl e => handler e
  | inr x => inr x
  end.

Fixpoint mapM {A B} (f : A -> result B) (l : list A) : result (list B) :=
  match l with
  | [] => ret []
  | x :: l' =>
      bind (f x) (fun y => bind (mapM f l') (fun ys => ret (y :: ys)))
  end.

(** [l.map((x, index) => f(x, index))], the index starting at [i]. *)
Fixpoint mapM_index {A B} (f : A -> nat -> result B) (i : nat) (l : list A)
    : result (list B) :=
  match l with
  | [] => ret []
  | x :: l' =>
      bind (f x i)
        (fun y => bind (mapM_index f (S i) l') (fun ys => ret (y :: ys)))
  end.

Fixpoint lookup (k : jstring) (props : list (jstring * value)) : option value :=
  match props with
  | [] => None
  | (k', v) :: props' => if jstring_eqb k k' then Some v else lookup k props'
  end.

(** Defining a property: an existing key keeps its place. *)
Fixpoint set_prop (k : jstring) (v : value) (props : list (jstring * value))
    : list (jstring * value) :=
  match props with
  | [] => [(k, v)]
  | (k', v') :: props' =>
      if jstring_eqb k k' then (k, v) :: props'
      else (k', v') :: set_prop k v props'
  end.

(** [o.k] for the property names the source reads ([title], [message],
    [delay], ...): none of them is an array index, [length] or a member
    of a built-in prototype, so on a primitive or an array the read gives
    [undefined]; on [null] and [undefined] it throws a TypeError. *)
Definition get_prop (o : value) (k : jstring) : result value :=
  match o with
  | VUndefined | VNull =>
      throw (JsError TypeError
               (str "Cannot read properties of null or undefined"))
  | VObj props =>
      match lookup k props with
      | Some v => ret v
      | None => ret VUndefined
      end
  | _ => ret VUndefined
  end.

(** The value [data.k] evaluates to when [data] is neither null nor
    undefined. *)
Definition field (data : value) (k : jstring) : value :=
  match data with
  | VObj props =>
      match lookup k props with
      | Some v => v
      | None => VUndefined
      end
  | _ => VUndefined
  end.

Definition is_string (v : value) : bool :=
  match v with VStr _ => true | _ => false end.

(** [v == null] *)
Definition is_nullish (v : value) : bool :=
  match v with VUndefined | VNull => true | _ => false end.

(** The strings of a list of values: [l.filter(x => typeof x === 'string')]. *)
Fixpoint strings_of (l : list value) : list jstring :=
  match l with
  | [] => []
  | VStr s :: l' => s :: strings_of l'
  | _ :: l' => strings_of l'
  end.

(** [typeof v === 'string' ? v : undefined] and its variant with a default. *)
Definition string_or_undefined (v : value) : option jstring :=
  match v with VStr s => Some s | _ => None end.

Definition string_or (v : value) (default : jstring) : jstring :=
  match v with VStr s => s | _ => default end.

End Values.

Arguments VUndefined {num}.
Arguments VNull {num}.
Arguments VBool {num} b.
Arguments VStr {num} s.
Arguments VArr {num} items.
Arguments VObj {num} props.
Arguments JsError {num} kind message.
Arguments ret {num A} x.
Arguments throw {num A} e.

(** The built-ins of the JavaScript runtime the code calls and this
    development does not define: the number type with the operations the
    source applies to it, [JSON.parse] (which throws a SyntaxError with
    some message, or returns a value), [String.prototype.toLowerCase]
    and [toUpperCase],
    and the host name [new URL(u).hostname] of a URL ([None] when the
    constructor throws). *)
Record Runtime : Type := {
  num : Type;
  num_of_nat : nat -> num;
  num_truthy : num -> bool;
  parseInt : value num -> num;
  Math_max : num -> num -> num;
  JSON_parse : jstring -> jstring + value num;
  toLowerCase : jstring -> jstring;
  toUpperCase : jstring -> jstring;
  URL_hostname : jstring -> option jstring
}.

(** ToBoolean *)
Definition truthy (rt : Runtime) (v : value (num rt)) : bool :=
  match v with
  | VUndefined | VNull => false
  | VBool b => b
  | VNum n => num_truthy rt n
  | VStr s => match s with [] => false | _ :: _ => true end
  | VArr _ | VObj _ => true
  end.

(** [a || b] *)
Definition or_else (rt : Runtime) (a b : value (num rt)) : value (num rt) :=
  if truthy rt a then a else b.

Unset Implicit Arguments.

End Value.
Import Value.

Declare Scope js_scope.
Notation "x <- m ;; k" := (bind m (fun x => k))
  (at level 61, m at next level, right associativity) : js_scope.
Local Open Scope js_scope.

(** ** aiUtils.ts: the string utilities *)

Module AiUtils.

Definition backtick : char := 96%N.
Definition lbrace : char := 123%N.
Definition rbrace : char := 125%N.
Definition dquote : char := 34%N.
Definition backslash : char := 92%N.

Definition fence : list regex := [Chr backtick; Chr backtick; Chr backtick].

(** [/^```json\s*/i] *)
Definition re_open_json : regex :=
  seqs ([Bol] ++ fence ++ [lit (str "json"); ws_star]).

(** [/^```\s*/i] *)
Definition re_open : regex := seqs ([Bol] ++ fence ++ [ws_star]).

(** [/\s*```\s*$/i] *)
Definition re_close : regex := seqs ([ws_star] ++ fence ++ [ws_star; Eol]).

(** [/^\s*[\w\s]*?(?=\{)/g] *)
Definition re_before_brace : regex :=
  seqs [Bol; ws_star; Star false (Class false [CWord; CSpace]);
        Lookahead (Chr lbrace)].

(** [/\}\s*[\w\s]*$/g] *)
Definition re_after_brace : regex :=
  seqs [Chr rbrace; ws_star; Star true (Class false [CWord; CSpace]); Eol].

Definition const (rep : jstring) : rmatch_result -> jstring := fun _ => rep.

(** The three fence replacements and the trim. *)
Definition strip_fences (response : jstring) : jstring :=
  trim
    (replace_first flag_i re_close (const [])
       (replace_first flag_i re_open (const [])
          (replace_first flag_i re_open_json (const []) response))).

(** The cut from the first [{] to the last [}]. *)
Definition extract_braces (cleaned : jstring) : jstring :=
  match indexOf lbrace cleaned, lastIndexOf rbrace cleaned with
  | Some jsonStart, Some jsonEnd =>
      if jsonStart <=? jsonEnd
      then substring jsonStart (jsonEnd + 1) cleaned
      else cleaned
  | _, _ => cleaned
  end.

(** The "additional cleanup" replacements and the final trim. *)
Definition strip_around (cleaned : jstring) : jstring :=
  trim
    (replace_all no_flags re_after_brace (const [rbrace])
       (replace_all no_flags re_before_brace (const []) cleaned)).

Definition cleanJsonResponse (response : jstring) : jstring :=
  match response with
  | [] => response
  | _ :: _ => strip_around (extract_braces (strip_fences response))
  end.

(** A text that starts with [{] and ends with [}]. *)
Definition brace_delimited (t : jstring) : Prop :=
  exists u v, t = lbrace :: u /\ t = v ++ [rbrace].

(** A text in which a [{] comes before a [}]. *)
Definition has_object (s : jstring) : Prop :=
  exists x y z, s = x ++ lbrace :: y ++ rbrace :: z.

Definition is_brace (c : char) : bool := N.eqb c lbrace || N.eqb c rbrace.

(** The braces of a text, in order. *)
Definition braces (s : jstring) : jstring := filter is_brace s.

(** A text that is empty or ends with [x]. *)
Definition ends_with (x : char) (a : jstring) : Prop :=
  a = [] \/ exists v, a = v ++ [x].

(** A text of white space only. *)
Definition all_space (a : jstring) : Prop := forallb is_space a = true.

(** A text in which [c] does not occur. *)
Definition lacks (c : char) (a : jstring) : Prop := ~ In c a.

(** White space, possibly after a text that ends with [}]. *)
Definition space_after_brace (a : jstring) : Prop :=
  all_space a \/ exists p w, a = p ++ rbrace :: w /\ all_space w.

(** [sanitizeJsonString]: the seven global replacements, in order.  The
    last pattern of the source is [/\b/g], which a RegExp reads as the
    word-boundary assertion. *)
Definition sanitizeJsonString (s : jstring) : jstring :=
  replace_all no_flags WordBoundary (const (str "\b"))
    (replace_all no_flags (Chr 12%N) (const (str "\f"))
       (replace_all no_flags (Chr 9%N) (const (str "\t"))
          (replace_all no_flags (Chr 13%N) (const (str "\r"))
             (replace_all no_flags (Chr 10%N) (const (str "\n"))
                (replace_all no_flags (Chr dquote) (const [backslash; dquote])
                   (replace_all no_flags (Chr backslash)
                      (const [backslash; backslash]) s)))))).


(** *** parseJsonSafely *)

Definition colon : char := 58%N.
Definition space : char := 32%N.
Definition lbracket : char := 91%N.
Definition rbracket : char := 93%N.

(** The patterns below are quoted with [Q] standing for the double
    quote character and with a blank between a star and a closing
    parenthesis.  [[^Q]*] *)
Definition not_quote_star : regex := Star true (Class true [CChar dquote]).

(** [[^Q]*(?:\\.[^Q]* )*] *)
Definition string_body : regex :=
  Seq not_quote_star
      (Star true (seqs [Chr backslash; Dot; not_quote_star])).

(** [/Q([^Q]* )Q:\s*Q([^Q]*(?:\\.[^Q]* )* )Q/g] *)
Definition re_string_member : regex :=
  seqs [Chr dquote; Group 1 not_quote_star; Chr dquote; Chr colon; ws_star;
        Chr dquote; Group 2 string_body; Chr dquote].

(** [/Q([^Q]* )Q:\s*\[([^\]]* )\]/g] *)
Definition re_array_member : regex :=
  seqs [Chr dquote; Group 1 not_quote_star; Chr dquote; Chr colon; ws_star;
        Chr lbracket; Group 2 (Star true (Class true [CChar rbracket]));
        Chr rbracket].

(** [/Q([^Q]*(?:\\.[^Q]* )* )Q/g] *)
Definition re_string_item : regex :=
  seqs [Chr dquote; Group 1 string_body; Chr dquote].

(** [/\\Q/g] *)
Definition re_escaped_quote : regex := Seq (Chr backslash) (Chr dquote).

(** [new RegExp(`Q${fieldName}Q:\\s*Q([^Q]*(?:\\\\.[^Q]* )* )Q`, 'i')] *)
Definition re_field (fieldName : jstring) : regex :=
  seqs [Chr dquote; lit fieldName; Chr dquote; Chr colon; ws_star;
        Chr dquote; Group 1 string_body; Chr dquote].

(** [new RegExp(`Q${fieldName}Q:\\s*\\[(.*?)\\]`, 'is')] *)
Definition re_array_field (fieldName : jstring) : regex :=
  seqs [Chr dquote; lit fieldName; Chr dquote; Chr colon; ws_star;
        Chr lbracket; Group 1 (Star false Dot); Chr rbracket].

(** [x.replace(/\\Q/g, 'Q')] *)
Definition unescape_quotes (x : jstring) : jstring :=
  replace_all no_flags re_escaped_quote (const [dquote]) x.

Section Parse.
Variable rt : Runtime.
Abbreviation value := (Value.value (num rt)).
Abbreviation result := (Value.result (num rt)).

(** [JSON.parse(s)] *)
Definition json_parse (s : jstring) : result value :=
  match JSON_parse rt s with
  | inl message => throw (JsError SyntaxError message)
  | inr v => ret v
  end.

(** Calling a string method on a capture that did not take part in the
    match, which JavaScript hands over as [undefined]. *)
Definition method_of_capture (c : option jstring) : result jstring :=
  match c with
  | Some s => ret s
  | None =>
      throw (JsError TypeError (str "Cannot read properties of undefined"))
  end.

(** [`${c}`] for a capture *)
Definition interpolate (c : option jstring) : jstring :=
  match c with
  | Some s => s
  | None => str "undefined"
  end.

(** [s.replace(r, callback)] with the g flag and a callback that may
    throw. *)
Definition replace_all_with (fl : flags) (r : regex)
    (f : rmatch_result -> result jstring) (s : jstring) : result jstring :=
  let '(ms, tail) := scan fl r s in
  parts <- mapM (fun m => x <- f m ;; ret (m_pre m ++ x)) ms ;;
  ret (concat parts ++ tail).

(** [v.replace(/\\Q/g, 'Q').replace(/Q/g, '\\Q')] on a capture *)
Definition reescape (c : option jstring) : result jstring :=
  v <- method_of_capture c ;;
  ret (replace_all no_flags (Chr dquote) (const [backslash; dquote])
         (unescape_quotes v)).

(** The callback of the first replacement of the second attempt. *)
Definition fix_string_member (m : rmatch_result) : result jstring :=
  cleanValue <- reescape (capture 2 (m_caps m)) ;;
  ret ([dquote] ++ interpolate (capture 1 (m_caps m))
       ++ [dquote; colon; space; dquote] ++ cleanValue ++ [dquote]).

Definition fix_array_item (m : rmatch_result) : result jstring :=
  cleanItemValue <- reescape (capture 1 (m_caps m)) ;;
  ret ([dquote] ++ cleanItemValue ++ [dquote]).

(** The callback of the second replacement of the second attempt. *)
Definition fix_array_member (m : rmatch_result) : result jstring :=
  arrayContent <- method_of_capture (capture 2 (m_caps m)) ;;
  fixedArrayContent <-
    replace_all_with no_flags re_string_item fix_array_item arrayContent ;;
  ret ([dquote] ++ interpolate (capture 1 (m_caps m))
       ++ [dquote; colon; space; lbracket] ++ fixedArrayContent ++ [rbracket]).

(** Second attempt: re-escape the quotes, then parse. *)
Definition parse_fixed (jsonString : jstring) : result value :=
  fixedJson <-
    replace_all_with no_flags re_string_member fix_string_member jsonString ;;
  fixedJson <-
    replace_all_with no_flags re_array_member fix_array_member fixedJson ;;
  json_parse fixedJson.

Definition extractField (jsonString fieldName : jstring) (defaultValue : value)
    : result value :=
  match exec flag_i (re_field fieldName) jsonString with
  | Some m =>
      g <- method_of_capture (capture 1 (m_caps m)) ;;
      ret (VStr (unescape_quotes g))
  | None => ret defaultValue
  end.

Definition extractArray (jsonString fieldName : jstring) (defaultValue : value)
    : result value :=
  match exec flag_is (re_array_field fieldName) jsonString with
  | Some m =>
      arrayContent <- method_of_capture (capture 1 (m_caps m)) ;;
      match match_all no_flags re_string_item arrayContent with
      | Some items =>
          ret (VArr (List.map
                       (fun item => VStr (unescape_quotes (slice_1_m1 item)))
                       items))
      | None => ret defaultValue
      end
  | None => ret defaultValue
  end.

(** Third attempt: rebuild an object from the fields found by RegExp. *)
Definition reconstruct (jsonString : jstring) : result value :=
  let field := extractField jsonString in
  let array name := extractArray jsonString name (VArr []) in
  score <- field (str "score") (VNum (num_of_nat rt 0)) ;;
  reasons <- array (str "reasons") ;;
  category <- field (str "category") (VStr (str "potential")) ;;
  title <- field (str "title") (VStr []) ;;
  description <- field (str "description") (VStr []) ;;
  requirements <- array (str "requirements") ;;
  location <- field (str "location") (VStr []) ;;
  name <- field (str "name") (VStr []) ;;
  industry <- field (str "industry") (VStr []) ;;
  size <- field (str "size") (VStr []) ;;
  values <- array (str "values") ;;
  benefits <- array (str "benefits") ;;
  cultureKeywords <- array (str "cultureKeywords") ;;
  ret (VObj [(str "score", score); (str "reasons", reasons);
             (str "category", category); (str "title", title);
             (str "description", description);
             (str "requirements", requirements); (str "location", location);
             (str "name", name); (str "industry", industry);
             (str "size", size); (str "values", values);
             (str "benefits", benefits);
             (str "cultureKeywords", cultureKeywords)]).

(** What the third attempt builds when it finds none of its fields. *)
Definition default_object : value :=
  VObj [(str "score", VNum (num_of_nat rt 0)); (str "reasons", VArr []);
        (str "category", VStr (str "potential")); (str "title", VStr []);
        (str "description", VStr []); (str "requirements", VArr []);
        (str "location", VStr []); (str "name", VStr []);
        (str "industry", VStr []); (str "size", VStr []);
        (str "values", VArr []); (str "benefits", VArr []);
        (str "cultureKeywords", VArr [])].

(** The keys of the object of the third attempt, in order. *)
Definition reconstructed_keys : list jstring :=
  [str "score"; str "reasons"; str "category"; str "title";
   str "description"; str "requirements"; str "location"; str "name";
   str "industry"; str "size"; str "values"; str "benefits";
   str "cultureKeywords"].

(** A value a reconstructed field can hold: a string, an array of
    strings, or the number 0 (the default of [score]). *)
Definition reconstructed_value (v : value) : Prop :=
  (exists t, v = VStr t) \/ (exists l, v = VArr (List.map VStr l))
  \/ v = VNum (num_of_nat rt 0).

(** The three nested try blocks.  [firstError] is the SyntaxError of the
    direct [JSON.parse]; its message is quoted by the final throw. *)
Definition parseJsonSafely (jsonString : jstring) : result value :=
  match JSON_parse rt jsonString with
  | inr v => ret v
  | inl firstError =>
      try_catch (parse_fixed jsonString)
        (fun secondError =>
           try_catch (reconstruct jsonString)
             (fun thirdError =>
                throw (JsError PlainError
                         (str "Failed to parse JSON after multiple attempts: "
                          ++ firstError))))
  end.

End Parse.

(** Line feed, carriage return, tab and form feed. *)
Definition is_escaped_control (x : char) : bool :=
  N.eqb x 10 || N.eqb x 13 || N.eqb x 9 || N.eqb x 12.

End AiUtils.

(** ** The chat-completion call

    What [await openai.chat.completions.create(...)] followed by
    [completion.choices[0]?.message?.content] comes to: either something
    is thrown (the request is rejected, or the completion has no
    [choices]), or the content is read, and it may be missing.  The
    prompts and the model settings ([getAIModelForTask] and
    [getPromptForTask] of [src/config/ai], which is not among the
    sources) only shape the request; the functions below are stated for
    every outcome of it. *)

Module Llm.

Section Completion.
Variable rt : Runtime.

Inductive completion : Type :=
| Rejected (e : exn (num rt))
| Content (content : option jstring).

(** [const response = ...content; if (!response) throw new Error(...)] *)
Definition response_of (c : completion) : result (num rt) jstring :=
  match c with
  | Rejected e => throw e
  | Content (Some (x :: r)) => ret (x :: r)
  | Content _ => throw (JsError PlainError (str "No response from OpenAI"))
  end.

(** [completion.choices[0]?.message?.content], read without the check. *)
Definition content_of (c : completion) : result (num rt) (option jstring) :=
  match c with
  | Rejected e => throw e
  | Content content => ret content
  end.

End Completion.

Arguments Content {rt} content.

End Llm.
Import Llm.

(** ** jobExtraction.ts *)

Module JobExtraction.

Record ExtractedJobData : Type := {
  title : jstring;
  description : jstring;
  requirements : list jstring;
  location : jstring;
  salary_range : option jstring;
  employment_type : jstring;
  company_name : option jstring;
  reference_number : option jstring;
  shift_timings : option jstring;
  apply_url : jstring
}.

Definition employment_types : list jstring :=
  [str "full-time"; str "part-time"; str "contract"; str "temporary"].

(** [result.apply_url = jobUrl] *)
Definition set_apply_url (r : ExtractedJobData) (jobUrl : jstring)
    : ExtractedJobData :=
  {| title := title r; description := description r;
     requirements := requirements r; location := location r;
     salary_range := salary_range r; employment_type := employment_type r;
     company_name := company_name r; reference_number := reference_number r;
     shift_timings := shift_timings r; apply_url := jobUrl |}.

(** The description of the fallback data, around [${title}]. *)
Definition fallback_description (title : jstring) : jstring :=
  str "We are seeking a qualified " ++ title
  ++ str " to join our healthcare team. This position offers an opportunity to make a meaningful impact in patient care while working in a supportive and professional environment."
  ++ [newline; newline]
  ++ str "The successful candidate will be responsible for providing high-quality healthcare services, collaborating with multidisciplinary teams, and maintaining the highest standards of patient care and safety."
  ++ [newline; newline]
  ++ str "We offer competitive compensation, comprehensive benefits, and opportunities for professional growth and development.".

Definition fallback_requirements : list jstring :=
  [str "Relevant professional certification/license required";
   str "Previous healthcare experience preferred";
   str "Strong communication and interpersonal skills";
   str "Ability to work effectively in a team environment";
   str "Commitment to patient care excellence"].

Section WithRuntime.
Variable rt : Runtime.
Abbreviation value := (Value.value (num rt)).
Abbreviation result := (Value.result (num rt)).

Definition validateJsonStructure (data : value) : result ExtractedJobData :=
  v_title <- get_prop data (str "title") ;;
  v_description <- get_prop data (str "description") ;;
  v_requirements <- get_prop data (str "requirements") ;;
  v_location <- get_prop data (str "location") ;;
  v_salary_range <- get_prop data (str "salary_range") ;;
  v_employment_type <- get_prop data (str "employment_type") ;;
  v_company_name <- get_prop data (str "company_name") ;;
  v_reference_number <- get_prop data (str "reference_number") ;;
  v_shift_timings <- get_prop data (str "shift_timings") ;;
  v_apply_url <- get_prop data (str "apply_url") ;;
  ret {| title := string_or v_title (str "Healthcare Professional");
         description := string_or v_description (str "Join our healthcare team.");
         requirements :=
           match v_requirements with
           | VArr items => strings_of items
           | _ => [str "Professional certification required"]
           end;
         location := string_or v_location (str "Multiple locations");
         salary_range := string_or_undefined v_salary_range;
         employment_type :=
           match v_employment_type with
           | VStr s =>
               if existsb (jstring_eqb s) employment_types
               then s else str "full-time"
           | _ => str "full-time"
           end;
         company_name := string_or_undefined v_company_name;
         reference_number := string_or_undefined v_reference_number;
         shift_timings := string_or_undefined v_shift_timings;
         apply_url := string_or v_apply_url [] |}.

(** An optional field of the result: the string or [undefined]. *)
Definition optional_field (f : option jstring) : value :=
  match f with
  | Some s => VStr s
  | None => VUndefined
  end.

(** The object literal validateJsonStructure returns, as a value: the
    ten properties in the order of the literal. *)
Definition value_of_job (d : ExtractedJobData) : value :=
  VObj [(str "title", VStr (title d));
        (str "description", VStr (description d));
        (str "requirements", VArr (map VStr (requirements d)));
        (str "location", VStr (location d));
        (str "salary_range", optional_field (salary_range d));
        (str "employment_type", VStr (employment_type d));
        (str "company_name", optional_field (company_name d));
        (str "reference_number", optional_field (reference_number d));
        (str "shift_timings", optional_field (shift_timings d));
        (str "apply_url", VStr (apply_url d))].

(** The company name read off the host of the URL; [None] when
    [new URL(jobUrl)] throws or the host has a single label. *)
Definition company_of_url (jobUrl : jstring) : option jstring :=
  match URL_hostname rt jobUrl with
  | None => None
  | Some host =>
      let hostname := replace_str (str "www.") [] host in
      let parts := split 46%N hostname in
      if 1 <? length parts then
        let part0 := hd [] parts in
        Some (toUpperCase rt (firstn 1 part0) ++ skipn 1 part0)
      else None
  end.

Definition createFallbackJobData (jobUrl : jstring) : ExtractedJobData :=
  let urlParts := toLowerCase rt jobUrl in
  let title :=
    if includes (str "nurse") urlParts then str "Registered Nurse"
    else if includes (str "doctor") urlParts || includes (str "physician") urlParts
    then str "Physician"
    else if includes (str "therapist") urlParts then str "Therapist"
    else if includes (str "technician") urlParts then str "Medical Technician"
    else if includes (str "administrator") urlParts
    then str "Healthcare Administrator"
    else str "Healthcare Professional" in
  let employment_type :=
    if includes (str "part-time") urlParts then str "part-time"
    else if includes (str "contract") urlParts then str "contract"
    else if includes (str "temporary") urlParts then str "temporary"
    else str "full-time" in
  {| title := title;
     description := fallback_description title;
     requirements := fallback_requirements;
     location := str "Multiple locations";
     salary_range := None;
     employment_type := employment_type;
     company_name := company_of_url jobUrl;
     reference_number := None;
     shift_timings := None;
     apply_url := jobUrl |}.

(** [error.message.includes('JSON')] in the catch block: a TypeError
    when the thrown value has no [message] with an [includes] method. *)
Definition message_includes_JSON (error : exn (num rt)) : result bool :=
  match error with
  | JsError _ message => ret (includes (str "JSON") message)
  | JsThrown v =>
      message <- get_prop v (str "message") ;;
      match message with
      | VStr s => ret (includes (str "JSON") s)
      | VArr items =>
          ret (existsb
                 (fun x => match x with
                           | VStr s => jstring_eqb s (str "JSON")
                           | _ => false
                           end) items)
      | _ =>
          throw (JsError TypeError
                   (str "error.message.includes is not a function"))
      end
  end.

Definition extractJobFromUrl (jobUrl : jstring) (llm : completion rt)
    : result ExtractedJobData :=
  try_catch
    (response <- response_of rt llm ;;
     let cleanedResponse := AiUtils.cleanJsonResponse response in
     parsedData <- AiUtils.parseJsonSafely rt cleanedResponse ;;
     result <- validateJsonStructure parsedData ;;
     ret (set_apply_url result jobUrl))
    (fun error =>
       _ <- message_includes_JSON error ;;
       ret (createFallbackJobData jobUrl)).

(** What generateJobDescription resolves to. *)
Record JobDescription : Type := {
  generated_description : jstring;
  generated_requirements : list jstring
}.

(** The description of the fallback, around [${jobTitle}]. *)
Definition fallback_job_description (jobTitle : jstring) : jstring :=
  str "We are seeking a qualified " ++ jobTitle
  ++ str " to join our healthcare team. This position offers an opportunity to make a meaningful impact in patient care while working in a supportive and professional environment."
  ++ [newline; newline]
  ++ str "The successful candidate will be responsible for providing high-quality healthcare services, collaborating with multidisciplinary teams, and maintaining the highest standards of patient care and safety."
  ++ [newline; newline]
  ++ str "We offer competitive compensation, comprehensive benefits, and opportunities for professional growth and development in a state-of-the-art healthcare facility.".

Definition fallbackJobDescription (jobTitle : jstring) : JobDescription :=
  {| generated_description := fallback_job_description jobTitle;
     generated_requirements :=
       [str "Relevant professional certification/license required";
        str "Previous healthcare experience preferred";
        str "Strong communication and interpersonal skills";
        str "Ability to work effectively in a team environment";
        str "Commitment to patient care excellence";
        str "Proficiency in electronic health records";
        str "Current CPR certification"] |}.

(** The body of the try block of generateJobDescription. *)
Definition describe_job (jobTitle : jstring) (llm : completion rt)
    : result JobDescription :=
  response <- response_of rt llm ;;
  let cleanedResponse := AiUtils.cleanJsonResponse response in
  parsedData <- AiUtils.parseJsonSafely rt cleanedResponse ;;
  v_description <- get_prop parsedData (str "description") ;;
  v_requirements <- get_prop parsedData (str "requirements") ;;
  ret {| generated_description :=
           string_or v_description
             (str "Join our team as a " ++ jobTitle
              ++ str " and make a meaningful impact in healthcare.");
         generated_requirements :=
           match v_requirements with
           | VArr items => strings_of items
           | _ => [str "Professional certification required"]
           end |}.

(** [additionalContext] only goes into the prompt. *)
Definition generateJobDescription (jobTitle : jstring)
    (additionalContext : option jstring) (llm : completion rt)
    : result JobDescription :=
  try_catch (describe_job jobTitle llm)
    (fun error => ret (fallbackJobDescription jobTitle)).

End WithRuntime.

End JobExtraction.

(** ** openai.ts *)

Module OpenAI.

Record CampaignPrompt : Type := {
  campaignType : jstring;
  targetAudience : jstring;
  campaignGoal : jstring;
  contentSources : list jstring;
  aiInstructions : jstring;
  tone : jstring;
  companyName : jstring;
  recruiterName : jstring
}.

(** The lines of a template literal, joined by newlines. *)
Fixpoint lines (ls : list jstring) : jstring :=
  match ls with
  | [] => []
  | [l] => l
  | l :: ls' => l ++ newline :: lines ls'
  end.

Section WithRuntime.
Variable rt : Runtime.
Abbreviation value := (Value.value (num rt)).
Abbreviation result := (Value.result (num rt)).

(** An EmailStep as it exists at run time: the fields copied from the
    parsed response hold whatever value the response had. *)
Record EmailStep : Type := {
  id : jstring;
  type : value;
  subject : value;
  content : value;
  delay : value;
  delayUnit : value
}.

Definition step_id (index : nat) : jstring :=
  str "step-" ++ nat_to_str (index + 1).

Definition is_the_string (s : jstring) (v : value) : bool :=
  match v with
  | VStr t => jstring_eqb t s
  | _ => false
  end.

(** The callback of [emailData.map]. *)
Definition to_email_step (email : value) (index : nat) : result EmailStep :=
  delayUnit <-
    (if index =? 0 then ret (str "immediately")
     else
       du <- get_prop email (str "delayUnit") ;;
       ret (match du with
            | VStr s =>
                if jstring_eqb s (str "immediately")
                   || jstring_eqb s (str "business days")
                then s else str "business days"
            | _ => str "business days"
            end)) ;;
  v_type <- get_prop email (str "type") ;;
  v_subject <- get_prop email (str "subject") ;;
  v_content <- get_prop email (str "content") ;;
  v_delay <- get_prop email (str "delay") ;;
  ret {| id := step_id index;
         type := VStr (if is_the_string (str "connection") v_type
                       then str "connection" else str "email");
         subject := or_else rt v_subject
                      (VStr (str "Follow-up " ++ nat_to_str (index + 1)));
         content := or_else rt v_content (VStr (str "Email content here..."));
         delay :=
           VNum (Math_max rt (num_of_nat rt 0)
                   (let parsed := parseInt rt v_delay in
                    if num_truthy rt parsed then parsed
                    else num_of_nat rt (if index =? 0 then 0 else index * 2)));
         delayUnit := VStr delayUnit |}.

(** [xs.map(f)] on a parsed value: a TypeError unless it is an array. *)
Definition map_value {A} (f : value -> nat -> result A) (xs : value)
    : result (list A) :=
  match xs with
  | VArr items => mapM_index f 0 items
  | VUndefined | VNull =>
      throw (JsError TypeError
               (str "Cannot read properties of null or undefined"))
  | _ => throw (JsError TypeError (str "map is not a function"))
  end.

Definition fallbackSequence (prompt : CampaignPrompt) : list EmailStep :=
  [ {| id := str "step-1";
       type := VStr (str "email");
       subject := VStr (str "{{First Name}}, interested in a new opportunity?");
       content := VStr (lines
         [str "Hi {{First Name}},";
          [];
          str "I hope this message finds you well. I came across your profile and was impressed by your experience in healthcare.";
          [];
          str "We have some exciting opportunities at {{Company Name}} that I think would be a great fit for your background and career goals.";
          [];
          str "Would you be open to a brief conversation about these opportunities?";
          [];
          str "Best regards,";
          recruiterName prompt]);
       delay := VNum (num_of_nat rt 0);
       delayUnit := VStr (str "immediately") |};
    {| id := str "step-2";
       type := VStr (str "email");
       subject := VStr (str "Following up on healthcare opportunities");
       content := VStr (lines
         [str "Hi {{First Name}},";
          [];
          str "I wanted to follow up on my previous message about opportunities at {{Company Name}}.";
          [];
          str "I understand you're likely busy, but I believe these roles could be a significant step forward in your career. We offer competitive compensation, excellent benefits, and a supportive work environment.";
          [];
          str "Would you have 10 minutes this week for a quick call?";
          [];
          str "Best,";
          recruiterName prompt]);
       delay := VNum (num_of_nat rt 3);
       delayUnit := VStr (str "business days") |};
    {| id := str "step-3";
       type := VStr (str "email");
       subject := VStr (str "Last follow-up - {{Company Name}} opportunities");
       content := VStr (lines
         [str "Hi {{First Name}},";
          [];
          str "This will be my final follow-up regarding the opportunities at {{Company Name}}.";
          [];
          str "I wanted to make sure you didn't miss out on these positions that align well with your background. If you're interested in learning more, please feel free to reach out.";
          [];
          str "If now isn't the right time, I completely understand and wish you all the best in your career.";
          [];
          str "Best regards,";
          recruiterName prompt]);
       delay := VNum (num_of_nat rt 5);
       delayUnit := VStr (str "business days") |} ].

(** The body of the try block: the request, the reading of the
    response, [JSON.parse] and the conversion of the parsed array. *)
Definition generate_steps (llm : completion rt) : result (list EmailStep) :=
  response <- response_of rt llm ;;
  emailData <- AiUtils.json_parse rt response ;;
  map_value to_email_step emailData.

Definition generateCampaignSequence (prompt : CampaignPrompt)
    (llm : completion rt) : result (list EmailStep) :=
  try_catch (generate_steps llm)
    (fun error => ret (fallbackSequence prompt)).

(** A step as the EmailStep interface describes it at position [index]:
    the id counts from one, the type and the unit are among the allowed
    strings, the delay is a number and the first step is immediate. *)
Definition well_formed_step (index : nat) (st : EmailStep) : Prop :=
  id st = step_id index
  /\ (type st = VStr (str "email") \/ type st = VStr (str "connection"))
  /\ (delayUnit st = VStr (str "immediately")
      \/ delayUnit st = VStr (str "business days"))
  /\ (index = 0 -> delayUnit st = VStr (str "immediately"))
  /\ exists n, delay st = VNum n.

Fixpoint well_formed_steps (index : nat) (steps : list EmailStep) : Prop :=
  match steps with
  | [] => True
  | st :: steps' =>
      well_formed_step index st /\ well_formed_steps (S index) steps'
  end.

(** The ids count step-1, step-2, ... from position [index]. *)
Fixpoint well_numbered (index : nat) (steps : list EmailStep) : Prop :=
  match steps with
  | [] => True
  | st :: steps' => id st = step_id index /\ well_numbered (S index) steps'
  end.

(** The first step, if any, is sent at once. *)
Definition starts_immediately (steps : list EmailStep) : Prop :=
  match steps with
  | [] => True
  | st :: _ =>
      delay st = VNum (num_of_nat rt 0)
      /\ delayUnit st = VStr (str "immediately")
  end.

(** [`${campaignType} Campaign`] *)
Definition fallbackName (campaignType : jstring) : jstring :=
  campaignType ++ str " Campaign".

(** The body of the try block of generateCampaignName:
    [content?.trim()] and [response || `${campaignType} Campaign`]. *)
Definition name_of_response (campaignType : jstring) (llm : completion rt)
    : result jstring :=
  content <- content_of rt llm ;;
  let response := option_map trim content in
  ret (match response with
       | Some (x :: r) => x :: r
       | _ => fallbackName campaignType
       end).

Definition generateCampaignName (campaignType targetAudience campaignGoal
    : jstring) (llm : completion rt) : result jstring :=
  try_catch (name_of_response campaignType llm)
    (fun error => ret (fallbackName campaignType)).

End WithRuntime.

End OpenAI.

(** ** campaignAssistantAI.ts *)

Module CampaignAssistantAI.

(** [/\s*```$/i] *)
Definition re_close : regex := seqs ([ws_star] ++ AiUtils.fence ++ [Eol]).

(** The module's own cleanJsonResponse. *)
Definition cleanJsonResponse (response : jstring) : jstring :=
  trim
    (replace_first flag_i re_close (AiUtils.const [])
       (replace_first flag_i AiUtils.re_open (AiUtils.const [])
          (replace_first flag_i AiUtils.re_open_json (AiUtils.const []) response))).

(** The characters the fence patterns consume: white space, the back-tick
    and the letters of [json] in either case. *)
Definition fence_text (x : char) : bool :=
  is_space x
  || existsb (fun c => N.eqb (canonicalize true x) (canonicalize true c))
       (AiUtils.backtick :: str "json").

(** The text without those characters. *)
Definition payload (s : jstring) : jstring :=
  filter (fun x => negb (fence_text x)) s.

(** What [determineNextStep] returns. *)
Inductive next_step : Type := Goal | Audience | Tone | Context | Review.

Definition step_name (s : next_step) : jstring :=
  match s with
  | Goal => str "goal"
  | Audience => str "audience"
  | Tone => str "tone"
  | Context => str "context"
  | Review => str "review"
  end.

(** CampaignDraft and CampaignExample are declared in [src/types], which
    is not among the sources; the records hold the fields the code reads.
    The optional fields of a draft are strings or undefined. *)
Record CampaignDraft : Type := {
  goal : jstring;
  matchedExampleId : option jstring;
  targetAudience : option jstring;
  tone : option jstring;
  companyName : option jstring;
  recruiterName : option jstring;
  additionalContext : option jstring
}.

(** [{ array, index }] pairs of [xs.map((x, index) => ...)]. *)
Fixpoint indexed {A} (i : nat) (l : list A) : list (nat * A) :=
  match l with
  | [] => []
  | x :: l' => (i, x) :: indexed (S i) l'
  end.

Section WithRuntime.
Variable rt : Runtime.
Abbreviation value := (Value.value (num rt)).
Abbreviation result := (Value.result (num rt)).
Abbreviation props := (list (jstring * Value.value (num rt))).
Abbreviation EmailStep := (OpenAI.EmailStep rt).

Record CampaignExample : Type := {
  campaignType : value;
  collateralToUse : value;
  steps : value;
  examples : list jstring
}.

Record AssistantResponse : Type := {
  message : value;
  suggestions : value;
  campaignDraft : props;
  nextStep : value;
  isComplete : value
}.

Record Campaign : Type := {
  campaignData : value;
  emailSteps : list EmailStep
}.

(** [draft.k], the draft being an object. *)
Definition draft_prop (draft : props) (k : jstring) : value :=
  match lookup k draft with
  | Some v => v
  | None => VUndefined
  end.

Definition determineNextStep (draft : props) : next_step :=
  if negb (truthy rt (draft_prop draft (str "goal"))) then Goal
  else if negb (truthy rt (draft_prop draft (str "targetAudience"))) then Audience
  else if negb (truthy rt (draft_prop draft (str "tone"))) then Tone
  else if negb (truthy rt (draft_prop draft (str "additionalContext"))) then Context
  else Review.

Definition getConversationStage (draft : props) : jstring :=
  if negb (truthy rt (draft_prop draft (str "goal")))
  then str "starting the campaign creation process"
  else if negb (truthy rt (draft_prop draft (str "targetAudience")))
  then str "defining their target audience"
  else if negb (truthy rt (draft_prop draft (str "tone")))
  then str "selecting the campaign tone"
  else if negb (truthy rt (draft_prop draft (str "additionalContext")))
  then str "providing additional context"
  else str "reviewing their campaign details".

Definition strings (l : list jstring) : value := VArr (List.map VStr l).

Definition createFallbackResponse (userInput : jstring) (currentDraft : props)
    (recentSearches : list jstring) : AssistantResponse :=
  let nextStep := determineNextStep currentDraft in
  let response :=
    match nextStep with
    | Goal =>
        (str "I'd love to help you create a campaign! What's the main goal you want to achieve with this campaign?",
         [str "Build a talent community for healthcare professionals";
          str "Nurture passive candidates with industry insights";
          str "Reengage inactive candidates with new opportunities";
          str "Provide educational content to boost candidate skills"])
    | Audience =>
        (str "Great goal! Now, who is your target audience for this campaign?",
         if 0 <? length recentSearches then firstn 4 recentSearches
         else
           [str "Healthcare professionals nationwide";
            str "Registered nurses in specific locations";
            str "New graduates entering healthcare";
            str "Experienced specialists in oncology/ICU"])
    | Tone =>
        (str "Perfect! What tone would you like for your campaign communications?",
         [str "Professional"; str "Friendly"; str "Casual"; str "Formal"])
    | Context =>
        (str "Excellent! Is there any additional context or specific requirements for this campaign?",
         [str "Include company benefits information";
          str "Focus on career development opportunities";
          str "Highlight work-life balance";
          str "Emphasize competitive compensation"])
    | Review =>
        (str "Let me review your campaign details. Does everything look correct?",
         [str "Yes, generate the campaign"; str "Let me make some changes"])
    end in
  {| message := VStr (fst response);
     suggestions := strings (snd response);
     campaignDraft := currentDraft;
     nextStep := VStr (step_name nextStep);
     isComplete := VBool false |}.

(** [{ ...target, ...source }]: the own enumerable properties of the
    source are defined on the copy; a string or an array contributes its
    indices, the other primitives nothing. *)
Definition spread_into (target : props) (source : value) : props :=
  let define acc (kv : jstring * value) := set_prop (fst kv) (snd kv) acc in
  match source with
  | VObj ps => fold_left define ps target
  | VArr items =>
      fold_left define
        (List.map (fun ix => (nat_to_str (fst ix), snd ix)) (indexed 0 items))
        target
  | VStr s =>
      fold_left define
        (List.map (fun ix => (nat_to_str (fst ix), VStr [snd ix])) (indexed 0 s))
        target
  | _ => target
  end.

(** The body of the try block of processUserInput. *)
Definition process_response (currentDraft : props) (llm : completion rt)
    : result AssistantResponse :=
  response <- response_of rt llm ;;
  let cleanedResponse := cleanJsonResponse response in
  parsedResponse <- AiUtils.json_parse rt cleanedResponse ;;
  v_message <- get_prop parsedResponse (str "message") ;;
  v_suggestions <- get_prop parsedResponse (str "suggestions") ;;
  v_campaignDraft <- get_prop parsedResponse (str "campaignDraft") ;;
  v_nextStep <- get_prop parsedResponse (str "nextStep") ;;
  v_isComplete <- get_prop parsedResponse (str "isComplete") ;;
  ret {| message := or_else rt v_message
                      (VStr (str "I'm here to help you create your campaign."));
         suggestions := or_else rt v_suggestions (VArr []);
         campaignDraft :=
           spread_into (spread_into [] (VObj currentDraft)) v_campaignDraft;
         nextStep := or_else rt v_nextStep
                       (VStr (step_name (determineNextStep currentDraft)));
         isComplete := or_else rt v_isComplete (VBool false) |}.

Definition processUserInput (userInput : jstring)
    (conversationHistory : list (jstring * jstring)) (currentDraft : props)
    (recentSearches : list jstring) (llm : completion rt)
    : result AssistantResponse :=
  try_catch (process_response currentDraft llm)
    (fun error =>
       ret (createFallbackResponse userInput currentDraft recentSearches)).

(** An optional string field as a value. *)
Definition optional (f : option jstring) : value :=
  match f with
  | Some s => VStr s
  | None => VUndefined
  end.

(** [f || default] for an optional string. *)
Definition optional_or (f : option jstring) (default : jstring) : jstring :=
  match f with
  | Some (x :: s) => x :: s
  | _ => default
  end.

Definition createFallbackCampaign (draft : CampaignDraft)
    (example : CampaignExample) : Campaign :=
  let campaignData :=
    VObj [(str "name",
           VStr (firstn 50 (goal draft)
                 ++ (if 50 <? length (goal draft) then str "..." else [])));
          (str "type", campaignType example);
          (str "targetAudience", optional (targetAudience draft));
          (str "campaignGoal", VStr (goal draft));
          (str "tone", optional (tone draft));
          (str "companyName", optional (companyName draft));
          (str "recruiterName", optional (recruiterName draft));
          (str "contentSources", collateralToUse example);
          (str "aiInstructions", optional (additionalContext draft))] in
  let emailSteps :=
    List.map
      (fun ix : nat * jstring =>
         let '(index, exampleTitle) := ix in
         {| OpenAI.id := OpenAI.step_id index;
            OpenAI.type := VStr (str "email");
            OpenAI.subject :=
              VStr (str "{{First Name}}, " ++ toLowerCase rt exampleTitle);
            OpenAI.content :=
              VStr (OpenAI.lines
                [str "Hi {{First Name}},";
                 [];
                 str "I hope this message finds you well. " ++ exampleTitle
                 ++ str " at {{Company Name}}.";
                 [];
                 optional_or (additionalContext draft)
                   (str "We have exciting opportunities that align with your background and career goals.");
                 [];
                 str "Best regards,";
                 AiUtils.interpolate (recruiterName draft)]);
            OpenAI.delay :=
              VNum (num_of_nat rt (if index =? 0 then 0 else index * 2));
            OpenAI.delayUnit :=
              VStr (if index =? 0 then str "immediately"
                    else str "business days") |})
      (indexed 0 (examples example)) in
  {| campaignData := campaignData; emailSteps := emailSteps |}.

(** The callback of [result.emailSteps.map]. *)
Definition to_email_step (step : value) (index : nat) : result EmailStep :=
  v_type <- get_prop step (str "type") ;;
  v_subject <- get_prop step (str "subject") ;;
  v_content <- get_prop step (str "content") ;;
  v_delay <-
    (if index =? 0 then ret (VNum (num_of_nat rt 0))
     else
       d <- get_prop step (str "delay") ;;
       ret (or_else rt d (VNum (num_of_nat rt (index * 2))))) ;;
  v_delayUnit <-
    (if index =? 0 then ret (VStr (str "immediately"))
     else
       u <- get_prop step (str "delayUnit") ;;
       ret (or_else rt u (VStr (str "business days")))) ;;
  ret {| OpenAI.id := OpenAI.step_id index;
         OpenAI.type := or_else rt v_type (VStr (str "email"));
         OpenAI.subject :=
           or_else rt v_subject
             (VStr (str "Follow-up " ++ nat_to_str (index + 1)));
         OpenAI.content :=
           or_else rt v_content (VStr (str "Email content here..."));
         OpenAI.delay := v_delay;
         OpenAI.delayUnit := v_delayUnit |}.

(** The body of the try block of generateCampaignFromDraft. *)
Definition generate_campaign (llm : completion rt) : result Campaign :=
  response <- response_of rt llm ;;
  let cleanedResponse := cleanJsonResponse response in
  parsed <- AiUtils.json_parse rt cleanedResponse ;;
  v_emailSteps <- get_prop parsed (str "emailSteps") ;;
  emailSteps <- OpenAI.map_value rt to_email_step v_emailSteps ;;
  v_campaignData <- get_prop parsed (str "campaignData") ;;
  ret {| campaignData := v_campaignData; emailSteps := emailSteps |}.

(** The two look-ups of [src/data/campaignExamples], which is not among
    the sources: each returns an example or null. *)
Variable findCampaignExampleById : jstring -> option CampaignExample.
Variable findCampaignExampleByGoal : jstring -> option CampaignExample.

(** The look-up by id, made only when the draft has a (non-empty) id. *)
Definition example_by_id (draft : CampaignDraft) : option CampaignExample :=
  match matchedExampleId draft with
  | Some (x :: s) => findCampaignExampleById (x :: s)
  | _ => None
  end.

(** The example the generation is guided by, if any. *)
Definition find_example (draft : CampaignDraft) : option CampaignExample :=
  match example_by_id draft with
  | Some example => Some example
  | None => findCampaignExampleByGoal (goal draft)
  end.

Definition generateCampaignFromDraft (draft : CampaignDraft)
    (llm : completion rt) : result Campaign :=
  match find_example draft with
  | None =>
      throw (JsError PlainError
               (str "No matching campaign example found. Cannot proceed without a guideline."))
  | Some matchingExample =>
      try_catch (generate_campaign llm)
        (fun error => ret (createFallbackCampaign draft matchingExample))
  end.

End WithRuntime.

End CampaignAssistantAI.

(** ** A runtime to run the definitions on

    The JSON grammar of ECMA-404 as [JSON.parse] reads it, with numbers
    kept as exact decimals (no rounding to a double), ASCII case folding
    and the host of a [scheme://host/...] URL. *)

Module RefRuntime.

(** [m * 10^e], or NaN. *)
Inductive dnum : Type :=
| NaN
| Dec (m e : Z).

Definition is_json_ws (c : char) : bool :=
  ((c =? 32) || (c =? 9) || (c =? 10) || (c =? 13))%N.

Fixpoint skip_ws (s : jstring) : jstring :=
  match s with
  | c :: s' => if is_json_ws c then skip_ws s' else s
  | [] => []
  end.

Definition is_digit (c : char) : bool := ((48 <=? c) && (c <=? 57))%N.

Definition hex_val (c : char) : option N :=
  if is_digit c then Some (c - 48)%N
  else if ((65 <=? c) && (c <=? 70))%N then Some (c - 55)%N
  else if ((97 <=? c) && (c <=? 102))%N then Some (c - 87)%N
  else None.

Definition hex4 (a b c d : char) : option char :=
  match hex_val a, hex_val b, hex_val c, hex_val d with
  | Some x, Some y, Some z, Some w => Some (((x * 16 + y) * 16 + z) * 16 + w)%N
  | _, _, _, _ => None
  end.

(** The character an escape [\e] stands for. *)
Definition simple_escape (e : char) : option char :=
  if (e =? 34)%N then Some 34%N          (* quote *)
  else if (e =? 92)%N then Some 92%N     (* backslash *)
  else if (e =? 47)%N then Some 47%N     (* slash *)
  else if (e =? 98)%N then Some 8%N      (* b: backspace *)
  else if (e =? 102)%N then Some 12%N    (* f: form feed *)
  else if (e =? 110)%N then Some 10%N    (* n *)
  else if (e =? 114)%N then Some 13%N    (* r *)
  else if (e =? 116)%N then Some 9%N     (* t *)
  else None.

(** A JSON string after its opening quote: the text and the rest of the
    input after the closing quote. *)
Fixpoint parse_string_body (s acc : jstring) : option (jstring * jstring) :=
  match s with
  | [] => None
  | c :: s' =>
      if (c =? 34)%N then Some (rev acc, s')
      else if (c =? 92)%N then
        match s' with
        | [] => None
        | e :: s'' =>
            if (e =? 117)%N then
              match s'' with
              | h1 :: h2 :: h3 :: h4 :: s3 =>
                  match hex4 h1 h2 h3 h4 with
                  | Some u => parse_string_body s3 (u :: acc)
                  | None => None
                  end
              | _ => None
              end
            else
              match simple_escape e with
              | Some x => parse_string_body s'' (x :: acc)
              | None => None
              end
        end
      else if (c <? 32)%N then None
      else parse_string_body s' (c :: acc)
  end.

(** A run of digits: its value, its length and the rest. *)
Fixpoint take_digits (s : jstring) (acc : Z) (n : nat) : Z * nat * jstring :=
  match s with
  | c :: s' =>
      if is_digit c
      then take_digits s' (acc * 10 + Z.of_N (c - 48)) (S n)
      else (acc, n, s)
  | [] => (acc, n, s)
  end.

(** [-? int frac? exp?] *)
Definition parse_number (s : jstring) : option (dnum * jstring) :=
  let '(neg, s1) :=
    match s with
    | c :: s' => if (c =? 45)%N then (true, s') else (false, s)
    | [] => (false, s)
    end in
  let '(ip, n, s2) := take_digits s1 0%Z 0 in
  let leading_zero :=
    match s1 with c :: _ => (c =? 48)%N | [] => false end in
  if (n =? 0) || (leading_zero && (1 <? n)) then None
  else
    let frac :=
      match s2 with
      | c :: s' =>
          if (c =? 46)%N then
            let '(m, k, s3) := take_digits s' ip 0 in
            if k =? 0 then None else Some (m, k, s3)
          else Some (ip, 0, s2)
      | [] => Some (ip, 0, s2)
      end in
    match frac with
    | None => None
    | Some (m, k, s3) =>
        let m' := if neg then (- m)%Z else m in
        match s3 with
        | c :: s' =>
            if ((c =? 101) || (c =? 69))%N then
              let '(eneg, s4) :=
                match s' with
                | d :: s'' =>
                    if (d =? 45)%N then (true, s'')
                    else if (d =? 43)%N then (false, s'')
                    else (false, s')
                | [] => (false, s')
                end in
              let '(ev, en, s5) := take_digits s4 0%Z 0 in
              if en =? 0 then None
              else Some (Dec m' ((if eneg then - ev else ev) - Z.of_nat k), s5)
            else Some (Dec m' (- Z.of_nat k), s3)
        | [] => Some (Dec m' (- Z.of_nat k), s3)
        end
    end.

Definition expect (lit rest : jstring) (v : value dnum)
    : option (value dnum * jstring) :=
  if starts_with lit rest then Some (v, skipn (length lit) rest) else None.

Fixpoint parse_value (fuel : nat) (s : jstring)
    : option (value dnum * jstring) :=
  match fuel with
  | 0 => None
  | S fuel' =>
      match skip_ws s with
      | [] => None
      | c :: s' =>
          if (c =? 123)%N then
            match skip_ws s' with
            | d :: s'' =>
                if (d =? 125)%N then Some (VObj [], s'')
                else parse_members fuel' s' []
            | [] => None
            end
          else if (c =? 91)%N then
            match skip_ws s' with
            | d :: s'' =>
                if (d =? 93)%N then Some (VArr [], s'')
                else parse_elements fuel' s' []
            | [] => None
            end
          else if (c =? 34)%N then
            match parse_string_body s' [] with
            | Some (t, r) => Some (VStr t, r)
            | None => None
            end
          else if (c =? 116)%N then expect (str "true") (c :: s') (VBool true)
          else if (c =? 102)%N then expect (str "false") (c :: s') (VBool false)
          else if (c =? 110)%N then expect (str "null") (c :: s') VNull
          else
            match parse_number (c :: s') with
            | Some (n, r) => Some (VNum n, r)
            | None => None
            end
      end
  end
with parse_elements (fuel : nat) (s : jstring) (acc : list (value dnum))
    : option (value dnum * jstring) :=
  match fuel with
  | 0 => None
  | S fuel' =>
      match parse_value fuel' s with
      | Some (v, r) =>
          match skip_ws r with
          | d :: r' =>
              if (d =? 44)%N then parse_elements fuel' r' (v :: acc)
              else if (d =? 93)%N then Some (VArr (rev (v :: acc)), r')
              else None
          | [] => None
          end
      | None => None
      end
  end
with parse_members (fuel : nat) (s : jstring)
    (acc : list (jstring * value dnum)) : option (value dnum * jstring) :=
  match fuel with
  | 0 => None
  | S fuel' =>
      match skip_ws s with
      | q :: s1 =>
          if (q =? 34)%N then
            match parse_string_body s1 [] with
            | Some (k, s2) =>
                match skip_ws s2 with
                | cl :: s3 =>
                    if (cl =? 58)%N then
                      match parse_value fuel' s3 with
                      | Some (v, r) =>
                          match skip_ws r with
                          | d :: r' =>
                              if (d =? 44)%N
                              then parse_members fuel' r' (set_prop k v acc)
                              else if (d =? 125)%N
                              then Some (VObj (set_prop k v acc), r')
                              else None
                          | [] => None
                          end
                      | None => None
                      end
                    else None
                | [] => None
                end
            | None => None
            end
          else None
      | [] => None
      end
  end.

Definition syntax_error : jstring := str "Unexpected token in JSON".

Definition parse (s : jstring) : jstring + value dnum :=
  match parse_value (2 * length s + 2) s with
  | Some (v, r) =>
      match skip_ws r with
      | [] => inr v
      | _ :: _ => inl syntax_error
      end
  | None => inl syntax_error
  end.

Definition lower (c : char) : char :=
  if ((65 <=? c) && (c <=? 90))%N then (c + 32)%N else c.

Definition upper (c : char) : char :=
  if ((97 <=? c) && (c <=? 122))%N then (c - 32)%N else c.

Definition dec_truthy (n : dnum) : bool :=
  match n with
  | NaN => false
  | Dec m _ => negb (m =? 0)%Z
  end.

Definition dec_trunc (n : dnum) : dnum :=
  match n with
  | NaN => NaN
  | Dec m e =>
      if (0 <=? e)%Z then Dec (m * 10 ^ e) 0
      else Dec (Z.quot m (10 ^ (- e))) 0
  end.

Definition int_of_string (s : jstring) : dnum :=
  let s1 := trimStart s in
  let '(neg, s2) :=
    match s1 with
    | c :: s' =>
        if (c =? 45)%N then (true, s')
        else if (c =? 43)%N then (false, s')
        else (false, s1)
    | [] => (false, s1)
    end in
  let '(v, n, _) := take_digits s2 0%Z 0 in
  if n =? 0 then NaN else Dec (if neg then - v else v) 0.

Fixpoint parse_int (v : value dnum) : dnum :=
  match v with
  | VNum n => dec_trunc n
  | VStr s => int_of_string s
  | VArr (x :: _) => parse_int x
  | _ => NaN
  end.

Definition dec_max (a b : dnum) : dnum :=
  match a, b with
  | Dec m1 e1, Dec m2 e2 =>
      let e := Z.min e1 e2 in
      if (m1 * 10 ^ (e1 - e) <? m2 * 10 ^ (e2 - e))%Z then b else a
  | _, _ => NaN
  end.

(** The host of [scheme://host...]: the text between [://] and the next
    [/], [?], [#] or [:], lower-cased; no host without [://]. *)
Fixpoint after_scheme (s : jstring) : option jstring :=
  match s with
  | [] => None
  | c :: s' =>
      if starts_with (str "://") s then Some (skipn 3 s)
      else after_scheme s'
  end.

Fixpoint host_part (s : jstring) : jstring :=
  match s with
  | [] => []
  | c :: s' =>
      if ((c =? 47) || (c =? 63) || (c =? 35) || (c =? 58))%N then []
      else lower c :: host_part s'
  end.

Definition hostname (u : jstring) : option jstring :=
  match after_scheme u with
  | Some r => match host_part r with [] => None | h => Some h end
  | None => None
  end.

Definition runtime : Runtime :=
  {| num := dnum;
     num_of_nat := fun n => Dec (Z.of_nat n) 0;
     num_truthy := dec_truthy;
     parseInt := parse_int;
     Math_max := dec_max;
     JSON_parse := parse;
     toLowerCase := List.map lower;
     toUpperCase := List.map upper;
     URL_hostname := hostname |}.

End RefRuntime.

(** ** Inputs the properties are run on *)

Module Samples.

(** The text [{Qtitle Q: QNurseQ}] with its quotes. *)
Definition sample_object : jstring :=
  [AiUtils.lbrace; AiUtils.dquote] ++ str "title" ++ [AiUtils.dquote; AiUtils.colon; AiUtils.dquote]
  ++ str "Nurse" ++ [AiUtils.dquote; AiUtils.rbrace].

(** A parsed job object with a title and a numeric employment type. *)
Definition sample_job : value RefRuntime.dnum :=
  VObj [(str "title", VStr (str "Nurse"));
        (str "employment_type", VNum (RefRuntime.Dec 1 0))].

Definition sample_prompt : OpenAI.CampaignPrompt :=
  {| OpenAI.campaignType := str "nurture";
     OpenAI.targetAudience := str "ICU nurses";
     OpenAI.campaignGoal := str "Build a talent community";
     OpenAI.contentSources := [str "benefits"];
     OpenAI.aiInstructions := [];
     OpenAI.tone := str "Friendly";
     OpenAI.companyName := str "Acme Health";
     OpenAI.recruiterName := str "Sam" |}.

Definition sample_draft : list (jstring * value RefRuntime.dnum) :=
  [(str "goal", VStr (str "Build a talent community"))].

Definition sample_campaign_draft : CampaignAssistantAI.CampaignDraft :=
  {| CampaignAssistantAI.goal := str "Build a talent community";
     CampaignAssistantAI.matchedExampleId := None;
     CampaignAssistantAI.targetAudience := Some (str "ICU nurses");
     CampaignAssistantAI.tone := Some (str "Friendly");
     CampaignAssistantAI.companyName := Some (str "Acme Health");
     CampaignAssistantAI.recruiterName := Some (str "Sam");
     CampaignAssistantAI.additionalContext := None |}.

Definition sample_example
    : CampaignAssistantAI.CampaignExample RefRuntime.runtime :=
  CampaignAssistantAI.Build_CampaignExample RefRuntime.runtime
    (VStr (str "nurture")) (VArr [VStr (str "newsletters")])
    (VNum (RefRuntime.Dec 2 0)) [str "Welcome"; str "Industry news"].

(** A draft that names its example, and a look-up that knows that id
    only. *)
Definition sample_matched_draft : CampaignAssistantAI.CampaignDraft :=
  {| CampaignAssistantAI.goal := str "Build a talent community";
     CampaignAssistantAI.matchedExampleId := Some (str "nurture-1");
     CampaignAssistantAI.targetAudience := Some (str "ICU nurses");
     CampaignAssistantAI.tone := Some (str "Friendly");
     CampaignAssistantAI.companyName := Some (str "Acme Health");
     CampaignAssistantAI.recruiterName := Some (str "Sam");
     CampaignAssistantAI.additionalContext := None |}.

Definition sample_find_by_id (id : jstring)
    : option (CampaignAssistantAI.CampaignExample RefRuntime.runtime) :=
  if jstring_eqb id (str "nurture-1") then Some sample_example else None.

(** A response with text around the object. *)
Definition chatty_response : jstring := str "Sure: {x} ok".

(** A blank, a fence and a letter. *)
Definition fence_after_space : jstring := str " ```a".

(** The sample object inside a json code fence. *)
Definition fenced_object : jstring :=
  str "```json" ++ [newline] ++ sample_object ++ [newline] ++ str "```".

(** The address of a job posting. *)
Definition sample_url : jstring :=
  str "https://www.acme.com/jobs/nurse-part-time".

End Samples.

(** * Properties *)

(** ** The matcher *)

Module RegExpFacts.

Section StarIter.
Variable P : mstate -> mstate -> Prop.
Variable step : mstate -> list mstate.
Hypothesis P_refl : forall s, P s s.
Hypothesis P_trans : forall s1 s2 s3, P s1 s2 -> P s2 s3 -> P s1 s3.
Hypothesis P_step : forall s s', In s' (step s) -> P s s'.

Lemma star_iter_rel greedy fuel :
  forall st st', In st' (star_iter step greedy fuel st) -> P st st'.
Proof.
  induction fuel as [|fuel IH]; intros st st' Hin; simpl in Hin.
  - destruct Hin as [<-|[]]. apply P_refl.
  - assert (Hmore :
      In st' (flat_map
                (fun s' => if length (snd (fst s')) <? length (snd (fst st))
                           then star_iter step greedy fuel s' else [])
                (step st)) -> P st st').
    { intros H. apply in_flat_map in H. destruct H as [s1 [H1 H2]].
      destruct (length (snd (fst s1)) <? length (snd (fst st))); [|easy].
      eapply P_trans; [apply P_step; eassumption | apply IH; assumption]. }
    destruct greedy.
    + apply in_app_or in Hin. destruct Hin as [H|[<-|[]]]; auto.
    + destruct Hin as [<-|H]; auto.
Qed.

End StarIter.

Lemma consumed_refl f st : consumed f st st.
Proof. exists []. auto. Qed.

Lemma consumed_trans f s1 s2 s3 :
  consumed f s1 s2 -> consumed f s2 s3 -> consumed f s1 s3.
Proof.
  intros [m1 [A1 [B1 C1]]] [m2 [A2 [B2 C2]]]. exists (m1 ++ m2).
  rewrite A1, A2, B2, B1, rev_app_distr, forallb_app, C1, C2, !app_assoc.
  auto.
Qed.

Lemma consumed_weaken (f g : char -> bool) st st' :
  (forall x, f x = true -> g x = true) ->
  consumed f st st' -> consumed g st st'.
Proof.
  intros Hfg [m [A [B C]]]. exists m. repeat split; auto.
  rewrite forallb_forall in *. auto.
Qed.

Lemma consumed_one (f : char -> bool) b a c x c' :
  f x = true -> consumed f (b, x :: a, c) (x :: b, a, c').
Proof. intros H. exists [x]. simpl. rewrite H. auto. Qed.

(** Every match consumes a piece of the input made of characters the
    pattern accepts. *)
Lemma rmatch_consumed fl r :
  forall st st', In st' (rmatch fl r st) -> consumed (accepts fl r) st st'.
Proof.
  induction r; intros [[b a] cp] st' Hin; cbn [rmatch] in Hin.
  - destruct Hin as [<-|[]]. apply consumed_refl.
  - destruct a as [|x a]; [easy|].
    destruct (N.eqb _ _) eqn:E; [|easy].
    destruct Hin as [<-|[]]. apply consumed_one. exact E.
  - destruct a as [|x a]; [easy|].
    destruct (class_accepts _ _ _ _) eqn:E; [|easy].
    destruct Hin as [<-|[]]. apply consumed_one. exact E.
  - destruct a as [|x a]; [easy|].
    destruct (dotAll fl || negb (is_line_terminator x)) eqn:E; [|easy].
    destruct Hin as [<-|[]]. apply consumed_one. exact E.
  - apply in_flat_map in Hin. destruct Hin as [s1 [H1 H2]].
    eapply consumed_trans.
    + eapply consumed_weaken; [|apply IHr1; eassumption].
      intros x Hx. simpl. rewrite Hx. reflexivity.
    + eapply consumed_weaken; [|apply IHr2; eassumption].
      intros x Hx. simpl. rewrite Hx. apply orb_true_r.
  - revert Hin. apply star_iter_rel.
    + apply consumed_refl.
    + apply consumed_trans.
    + exact IHr.
  - apply in_map_iff in Hin. destruct Hin as [[[b1 a1] c1] [<- H1]].
    apply IHr in H1. destruct H1 as [m H1]. exists m. exact H1.
  - destruct (rmatch fl r (b, a, cp)) as [|[[b1 a1] c1] l]; [easy|].
    destruct Hin as [<-|[]]. exists []. auto.
  - destruct b; [|easy]. destruct Hin as [<-|[]]. apply consumed_refl.
  - destruct a; [|easy]. destruct Hin as [<-|[]]. apply consumed_refl.
  - destruct (xorb _ _); [|easy]. destruct Hin as [<-|[]]. apply consumed_refl.
Qed.

(** A match of a pattern that ends with [$] ends at the end of input. *)
Lemma rmatch_eol fl r :
  ends_at_eol r = true ->
  forall st st', In st' (rmatch fl r st) -> snd (fst st') = [].
Proof.
  induction r; simpl; try discriminate; intros He [[b a] cp] st' Hin.
  - cbn [rmatch] in Hin. apply in_flat_map in Hin. destruct Hin as [s1 [_ H2]].
    eapply IHr2; eassumption.
  - cbn [rmatch] in Hin. destruct a; [|easy]. destruct Hin as [<-|[]]. reflexivity.
Qed.

(** A capture once set stays set. *)
Lemma rmatch_keeps_capture fl k r :
  forall st st', In st' (rmatch fl r st) ->
                 has_capture k st -> has_capture k st'.
Proof.
  unfold has_capture.
  induction r; intros [[b a] cp] st' Hin; cbn [rmatch] in Hin.
  - destruct Hin as [<-|[]]. auto.
  - destruct a as [|x a]; [easy|]. destruct (N.eqb _ _); [|easy].
    destruct Hin as [<-|[]]. auto.
  - destruct a as [|x a]; [easy|]. destruct (class_accepts _ _ _ _); [|easy].
    destruct Hin as [<-|[]]. auto.
  - destruct a as [|x a]; [easy|].
    destruct (dotAll fl || negb (is_line_terminator x)); [|easy].
    destruct Hin as [<-|[]]. auto.
  - apply in_flat_map in Hin. destruct Hin as [s1 [H1 H2]]. intros H.
    eapply IHr2; [eassumption|]. eapply IHr1; eassumption.
  - revert Hin.
    apply (star_iter_rel
             (fun s s' => capture k (snd s) <> None -> capture k (snd s') <> None));
      auto.
  - apply in_map_iff in Hin. destruct Hin as [[[b1 a1] c1] [<- H1]].
    intros H. simpl. destruct (Nat.eqb k k0); [discriminate|].
    apply (IHr _ _ H1 H).
  - destruct (rmatch fl r (b, a, cp)) as [|[[b1 a1] c1] l] eqn:E; [easy|].
    destruct Hin as [<-|[]]. intros H.
    apply (IHr (b, a, cp) (b1, a1, c1)); [rewrite E; left; reflexivity | exact H].
  - destruct b; [|easy]. destruct Hin as [<-|[]]. auto.
  - destruct a; [|easy]. destruct Hin as [<-|[]]. auto.
  - destruct (xorb _ _); [|easy]. destruct Hin as [<-|[]]. auto.
Qed.

(** A group outside every star is set by every match. *)
Lemma rmatch_binds fl k r :
  binds k r = true ->
  forall st st', In st' (rmatch fl r st) -> has_capture k st'.
Proof.
  induction r; simpl; try discriminate; intros Hb [[b a] cp] st' Hin;
    cbn [rmatch] in Hin.
  - apply in_flat_map in Hin. destruct Hin as [s1 [H1 H2]].
    destruct (binds k r1) eqn:B1.
    + eapply rmatch_keeps_capture; [eassumption|]. eapply IHr1; eauto.
    + eapply IHr2; eauto.
  - apply in_map_iff in Hin. destruct Hin as [[[b1 a1] c1] [<- H1]].
    unfold has_capture. simpl. destruct (Nat.eqb k k0) eqn:E; [discriminate|].
    apply (IHr Hb _ _ H1).
  - destruct (rmatch fl r (b, a, cp)) as [|[[b1 a1] c1] l] eqn:E; [easy|].
    destruct Hin as [<-|[]].
    apply (IHr Hb (b, a, cp) (b1, a1, c1)). rewrite E. left. reflexivity.
Qed.

(** Case analysis on the matches a hypothesis inspects. *)
Ltac case_rmatch H E :=
  match type of H with
  | context [rmatch ?fl ?r ?st] =>
      destruct (rmatch fl r st) as [|[[?b1 ?a1] ?c1] ?l] eqn:E
  end.

(** What [exec] returns is the head of the matches at some position. *)
Lemma exec_from_head fl r :
  forall a pre b m,
    exec_from fl r pre b a = Some m ->
    exists b0 a0 l,
      rmatch fl r (b0, a0, []) = (m_before m, m_after m, m_caps m) :: l
      /\ m_text m = firstn (length a0 - length (m_after m)) a0
      /\ rev pre ++ a = m_pre m ++ a0.
Proof.
  induction a as [|x a IH]; intros pre b m H; cbn [exec_from] in H.
  - case_rmatch H E; [discriminate|].
    injection H as <-. exists b, [], l. simpl. auto.
  - case_rmatch H E.
    + apply IH in H. destruct H as [b0 [a0 [l [H1 [H2 H3]]]]].
      exists b0, a0, l. repeat split; auto.
      rewrite <- H3. simpl. rewrite <- app_assoc. reflexivity.
    + injection H as <-. exists b, (x :: a), l. simpl. auto.
Qed.

Lemma exec_binds fl r k s m :
  binds k r = true -> exec fl r s = Some m -> capture k (m_caps m) <> None.
Proof.
  intros Hb H. apply exec_from_head in H.
  destruct H as [b0 [a0 [l [H _]]]].
  apply (rmatch_binds fl k r Hb (b0, a0, []) (m_before m, m_after m, m_caps m)).
  rewrite H. left. reflexivity.
Qed.

End RegExpFacts.
Import RegExpFacts.

(** ** parseJsonSafely *)

Module ParseFacts.

Lemma binds_re_field name : binds 1 (AiUtils.re_field name) = true.
Proof. unfold AiUtils.re_field. simpl. apply orb_true_r. Qed.

Lemma binds_re_array_field name : binds 1 (AiUtils.re_array_field name) = true.
Proof. unfold AiUtils.re_array_field. simpl. apply orb_true_r. Qed.

Section WithRuntime.
Variable rt : Runtime.

Lemma extractField_returns s name d :
  exists v, AiUtils.extractField rt s name d = inr v.
Proof.
  unfold AiUtils.extractField.
  destruct (exec flag_i (AiUtils.re_field name) s) as [m|] eqn:E.
  - pose proof (exec_binds _ _ _ _ _ (binds_re_field name) E) as Hc.
    destruct (capture 1 (m_caps m)); [|contradiction].
    simpl. eexists; reflexivity.
  - eexists; reflexivity.
Qed.

Lemma extractArray_returns s name d :
  exists v, AiUtils.extractArray rt s name d = inr v.
Proof.
  unfold AiUtils.extractArray.
  destruct (exec flag_is (AiUtils.re_array_field name) s) as [m|] eqn:E.
  - pose proof (exec_binds _ _ _ _ _ (binds_re_array_field name) E) as Hc.
    destruct (capture 1 (m_caps m)); [|contradiction].
    simpl. destruct (match_all _ _ _); eexists; reflexivity.
  - eexists; reflexivity.
Qed.

Lemma reconstruct_returns s : exists v, AiUtils.reconstruct rt s = inr v.
Proof.
  unfold AiUtils.reconstruct.
  repeat
    match goal with
    | |- context [AiUtils.extractField rt s ?n ?d] =>
        let v := fresh "v" in
        let E := fresh "E" in
        destruct (extractField_returns s n d) as [v E]; rewrite E;
        cbn [bind]
    | |- context [AiUtils.extractArray rt s ?n ?d] =>
        let v := fresh "v" in
        let E := fresh "E" in
        destruct (extractArray_returns s n d) as [v E]; rewrite E;
        cbn [bind]
    end.
  eexists; reflexivity.
Qed.

(** C1: a string the JSON parser accepts is returned as parsed; the
    repairs run only in the handler of a failed direct parse. *)
Theorem parseJsonSafely_accepted (s : jstring) (v : value (num rt)) :
  JSON_parse rt s = inr v -> AiUtils.parseJsonSafely rt s = inr v.
Proof.
  intros H. unfold AiUtils.parseJsonSafely. rewrite H. reflexivity.
Qed.

Lemma parseJsonSafely_returns s :
  exists v, AiUtils.parseJsonSafely rt s = inr v.
Proof.
  unfold AiUtils.parseJsonSafely.
  destruct (JSON_parse rt s) as [firstError|v]; [|eexists; reflexivity].
  destruct (AiUtils.parse_fixed rt s) as [secondError|v]; simpl;
    [|eexists; reflexivity].
  destruct (reconstruct_returns s) as [o E]. rewrite E. simpl.
  eexists; reflexivity.
Qed.

(** C9: parseJsonSafely returns a value on every string: the third
    attempt always builds its object, so the final throw is never
    reached. *)
Theorem parseJsonSafely_total (s : jstring) :
  (exists o, AiUtils.reconstruct rt s = inr o)
  /\ (exists v, AiUtils.parseJsonSafely rt s = inr v).
Proof.
  split; [apply reconstruct_returns | apply parseJsonSafely_returns].
Qed.

End WithRuntime.

Lemma parseJsonSafely_accepted_witness :
  AiUtils.parseJsonSafely RefRuntime.runtime Samples.sample_object
  = inr (VObj [(str "title", VStr (str "Nurse"))]).
Proof.
  apply (parseJsonSafely_accepted RefRuntime.runtime Samples.sample_object).
  vm_compute. reflexivity.
Defined.

End ParseFacts.

(** ** jobExtraction.ts *)

Module JobExtractionFacts.
Import JobExtraction.

Section WithRuntime.
Variable rt : Runtime.

Lemma get_prop_field (data : value (num rt)) k :
  data <> VNull -> data <> VUndefined -> get_prop data k = inr (field data k).
Proof.
  intros Hn Hu. destruct data; try reflexivity; try contradiction.
  simpl. destruct (lookup k props); reflexivity.
Qed.

Lemma strings_of_sound (items : list (value (num rt))) s :
  In s (strings_of items) -> In (VStr s) items.
Proof.
  induction items as [|x items IH]; simpl; [easy|].
  destruct x; simpl; auto. intros [->|H]; auto.
Qed.

Lemma jstring_eqb_eq s t : jstring_eqb s t = true <-> s = t.
Proof.
  revert t. induction s as [|x s IH]; destruct t as [|y t]; simpl;
    try (split; [discriminate | discriminate]); try tauto.
  rewrite andb_true_iff, N.eqb_eq, IH. split.
  - intros [-> ->]. reflexivity.
  - intros H. injection H as -> ->. auto.
Qed.

Lemma existsb_jstring_eqb s l : existsb (jstring_eqb s) l = true <-> In s l.
Proof.
  rewrite existsb_exists. split.
  - intros [t [Hin He]]. apply jstring_eqb_eq in He. subst. exact Hin.
  - intros H. exists s. split; [exact H | apply jstring_eqb_eq; reflexivity].
Qed.

Lemma validateJsonStructure_throws_error data e :
  validateJsonStructure rt data = inl e -> exists k msg, e = JsError k msg.
Proof.
  unfold validateJsonStructure.
  destruct data;
    try (rewrite !get_prop_field by discriminate; discriminate);
    simpl; intros H; injection H as <-; eauto.
Qed.

Lemma extractJobFromUrl_returns jobUrl content :
  exists d, extractJobFromUrl rt jobUrl (Content content) = inr d.
Proof.
  unfold extractJobFromUrl.
  destruct content as [[|x r]|]; cbn [response_of bind ret throw];
    try (eexists; reflexivity).
  destruct (ParseFacts.parseJsonSafely_returns rt
              (AiUtils.cleanJsonResponse (x :: r))) as [v E].
  rewrite E. cbn [bind ret throw].
  destruct (validateJsonStructure rt v) as [e|d] eqn:V.
  - apply validateJsonStructure_throws_error in V.
    destruct V as [k [msg ->]]. eexists; reflexivity.
  - eexists; reflexivity.
Qed.

(** C4: whatever the response text, the returned data carries the
    original URL, through the overwrite on the success path and through
    createFallbackJobData on the other. *)
Theorem extractJobFromUrl_apply_url (jobUrl : jstring)
    (content : option jstring) :
  exists d, extractJobFromUrl rt jobUrl (Content content) = inr d
            /\ apply_url d = jobUrl.
Proof.
  unfold extractJobFromUrl.
  destruct content as [[|x r]|]; cbn [response_of bind ret throw];
    try (eexists; split; reflexivity).
  destruct (ParseFacts.parseJsonSafely_returns rt
              (AiUtils.cleanJsonResponse (x :: r))) as [v E].
  rewrite E. cbn [bind ret throw].
  destruct (validateJsonStructure rt v) as [e|d] eqn:V.
  - apply validateJsonStructure_throws_error in V.
    destruct V as [k [msg ->]]. eexists; split; reflexivity.
  - eexists; split; reflexivity.
Qed.

(** C5, amended: on every value but null and undefined the function
    returns data whose employment type is one of the four, whose
    requirements are strings of the input array or the default, and whose
    title, description, location and apply_url are the input strings or
    their defaults. *)
Theorem validateJsonStructure_defaults (data : value (num rt)) :
  data <> VNull -> data <> VUndefined ->
  exists r,
    validateJsonStructure rt data = inr r
    /\ In (employment_type r) employment_types
    /\ (forall s, field data (str "employment_type") = VStr s ->
                  In s employment_types -> employment_type r = s)
    /\ ((forall s, field data (str "employment_type") = VStr s ->
                   ~ In s employment_types) ->
        employment_type r = str "full-time")
    /\ (forall items, field data (str "requirements") = VArr items ->
                      requirements r = strings_of items
                      /\ forall s, In s (requirements r) -> In (VStr s) items)
    /\ ((forall items, field data (str "requirements") <> VArr items) ->
        requirements r = [str "Professional certification required"])
    /\ title r = string_or (field data (str "title"))
                   (str "Healthcare Professional")
    /\ description r = string_or (field data (str "description"))
                         (str "Join our healthcare team.")
    /\ location r = string_or (field data (str "location"))
                      (str "Multiple locations")
    /\ apply_url r = string_or (field data (str "apply_url")) [].
Proof.
  intros Hn Hu. unfold validateJsonStructure.
  rewrite !(get_prop_field _ _ Hn Hu). cbn [bind].
  eexists. split; [reflexivity|]. cbn [employment_type requirements title
    description location apply_url].
  repeat split.
  - destruct (field data (str "employment_type")); try (left; reflexivity).
    destruct (existsb (jstring_eqb s) employment_types) eqn:E.
    + apply existsb_jstring_eqb. exact E.
    + left. reflexivity.
  - intros s Hs Hin. rewrite Hs.
    apply existsb_jstring_eqb in Hin. rewrite Hin. reflexivity.
  - intros H. destruct (field data (str "employment_type")); try reflexivity.
    destruct (existsb (jstring_eqb s) employment_types) eqn:E; [|reflexivity].
    apply existsb_jstring_eqb in E. exfalso. apply (H s eq_refl E).
  - rewrite H. reflexivity.
  - rewrite H. apply strings_of_sound.
  - intros H. destruct (field data (str "requirements")); try reflexivity.
    exfalso. apply (H items eq_refl).
Qed.

End WithRuntime.

Lemma validateJsonStructure_defaults_witness :
  exists r,
    validateJsonStructure RefRuntime.runtime Samples.sample_job = inr r
    /\ employment_type r = str "full-time"
    /\ title r = str "Nurse".
Proof.
  destruct (validateJsonStructure_defaults RefRuntime.runtime
              Samples.sample_job)
    as [r [E [_ [_ [H1 [_ [_ [H2 _]]]]]]]];
    [discriminate | discriminate |].
  exists r. repeat split; [exact E | | exact H2].
  apply H1. intros s Hs. discriminate Hs.
Defined.

(** C5 as stated fails: null is a value, and reading its properties
    throws. *)
Lemma validateJsonStructure_null_throws :
  ~ (forall data : value (num RefRuntime.runtime),
       exists r, validateJsonStructure RefRuntime.runtime data = inr r).
Proof.
  intros H. destruct (H VNull) as [r Hr]. discriminate Hr.
Qed.

End JobExtractionFacts.

(** ** openai.ts *)

Module OpenAIFacts.
Import OpenAI.

Section WithRuntime.
Variable rt : Runtime.

(** C3: when anything in the try block throws (the request, the reading
    of the response, JSON.parse or the conversion), the function returns
    the fixed three-step sequence instead of the error. *)
Theorem generateCampaignSequence_fallback (prompt : CampaignPrompt)
    (llm : completion rt) (e : exn (num rt)) :
  generate_steps rt llm = inl e ->
  exists s1 s2 s3,
    generateCampaignSequence rt prompt llm = inr [s1; s2; s3]
    /\ [s1; s2; s3] = fallbackSequence rt prompt
    /\ id rt s1 = str "step-1" /\ id rt s2 = str "step-2"
    /\ id rt s3 = str "step-3"
    /\ delay rt s1 = VNum (num_of_nat rt 0)
    /\ delayUnit rt s1 = VStr (str "immediately")
    /\ delay rt s2 = VNum (num_of_nat rt 3)
    /\ delayUnit rt s2 = VStr (str "business days")
    /\ delay rt s3 = VNum (num_of_nat rt 5)
    /\ delayUnit rt s3 = VStr (str "business days").
Proof.
  intros H. unfold generateCampaignSequence. rewrite H.
  cbn [try_catch ret fallbackSequence].
  do 3 eexists. repeat split; reflexivity.
Qed.

(** The three failures the try block guards first: a rejected request,
    a missing response, a response JSON.parse refuses. *)
Lemma generate_steps_rejected e : generate_steps rt (Rejected rt e) = inl e.
Proof. reflexivity. Qed.

Lemma generate_steps_no_response :
  exists e, generate_steps rt (Content None) = inl e.
Proof. eexists. reflexivity. Qed.

Lemma generate_steps_bad_json x r msg :
  JSON_parse rt (x :: r) = inl msg ->
  generate_steps rt (Content (Some (x :: r))) = inl (JsError SyntaxError msg).
Proof.
  intros H. unfold generate_steps, AiUtils.json_parse.
  cbn [response_of bind ret throw]. rewrite H. reflexivity.
Qed.

End WithRuntime.

Lemma generateCampaignSequence_fallback_witness :
  generateCampaignSequence RefRuntime.runtime Samples.sample_prompt
    (Content None)
  = inr (fallbackSequence RefRuntime.runtime Samples.sample_prompt).
Proof.
  destruct (generateCampaignSequence_fallback RefRuntime.runtime
              Samples.sample_prompt (Content None)
              (JsError PlainError (str "No response from OpenAI")) eq_refl)
    as [s1 [s2 [s3 [E [F _]]]]].
  rewrite E, F. reflexivity.
Defined.

End OpenAIFacts.

(** ** campaignAssistantAI.ts *)

Module CampaignFacts.
Import CampaignAssistantAI.

Section WithRuntime.
Variable rt : Runtime.

(** C6: when the try block of processUserInput throws, the response
    carries the draft it was given, unchanged, and is not complete. *)
Theorem processUserInput_fallback (userInput : jstring)
    (conversationHistory : list (jstring * jstring))
    (currentDraft : list (jstring * value (num rt)))
    (recentSearches : list jstring) (llm : completion rt)
    (e : exn (num rt)) :
  process_response rt currentDraft llm = inl e ->
  exists r,
    processUserInput rt userInput conversationHistory currentDraft
      recentSearches llm = inr r
    /\ r = createFallbackResponse rt userInput currentDraft recentSearches
    /\ campaignDraft rt r = currentDraft
    /\ isComplete rt r = VBool false.
Proof.
  intros H. unfold processUserInput. rewrite H.
  eexists. repeat split; reflexivity.
Qed.

Lemma process_response_rejected currentDraft e :
  process_response rt currentDraft (Rejected rt e) = inl e.
Proof. reflexivity. Qed.

Lemma process_response_bad_json currentDraft x r msg :
  JSON_parse rt (cleanJsonResponse (x :: r)) = inl msg ->
  process_response rt currentDraft (Content (Some (x :: r)))
  = inl (JsError SyntaxError msg).
Proof.
  intros H. unfold process_response, AiUtils.json_parse.
  cbn [response_of bind ret throw]. rewrite H. reflexivity.
Qed.

Section Examples.
Variable findCampaignExampleById : jstring -> option (CampaignExample rt).
Variable findCampaignExampleByGoal : jstring -> option (CampaignExample rt).

Abbreviation generate :=
  (generateCampaignFromDraft rt findCampaignExampleById
     findCampaignExampleByGoal).

(** C7: generateCampaignFromDraft throws exactly when neither look-up
    finds an example: the one by [draft.matchedExampleId], made when the
    id is present, and the one by [draft.goal].  An example found by id is
    the one used, whatever the goal would find; otherwise the one found by
    goal is.  With an example the function returns, and when its try block
    throws it returns the fallback campaign built from that example. *)
Theorem generateCampaignFromDraft_throws_iff (draft : CampaignDraft)
    (llm : completion rt) :
  ((exists e, generate draft llm = inl e)
   <-> ((forall x id, matchedExampleId draft = Some (x :: id) ->
                      findCampaignExampleById (x :: id) = None)
        /\ findCampaignExampleByGoal (goal draft) = None))
  /\ (forall x id example,
        matchedExampleId draft = Some (x :: id) ->
        findCampaignExampleById (x :: id) = Some example ->
        (exists c, generate draft llm = inr c)
        /\ (forall e, generate_campaign rt llm = inl e ->
                      generate draft llm
                      = inr (createFallbackCampaign rt draft example)))
  /\ (forall example,
        (forall x id, matchedExampleId draft = Some (x :: id) ->
                      findCampaignExampleById (x :: id) = None) ->
        findCampaignExampleByGoal (goal draft) = Some example ->
        (exists c, generate draft llm = inr c)
        /\ (forall e, generate_campaign rt llm = inl e ->
                      generate draft llm
                      = inr (createFallbackCampaign rt draft example))).
Proof.
  unfold generateCampaignFromDraft, find_example, example_by_id.
  destruct (matchedExampleId draft) as [[|x id]|] eqn:M.
  - (* the id is the empty string: no look-up by id *)
    split; [|split].
    + destruct (findCampaignExampleByGoal (goal draft)) as [ex|].
      * split; [|intros [_ H]; discriminate H].
        intros [e H]. destruct (generate_campaign rt llm); discriminate H.
      * split; [|intros _; eexists; reflexivity].
        intros _. split; [intros ? ? H; discriminate H | reflexivity].
    + intros ? ? ? H. discriminate H.
    + intros example _ G. rewrite G. split.
      * destruct (generate_campaign rt llm); eexists; reflexivity.
      * intros e He. rewrite He. reflexivity.
  - (* an id: the look-up by id comes first *)
    split; [|split].
    + destruct (findCampaignExampleById (x :: id)) as [ex|] eqn:F.
      * split.
        { intros [e H]. destruct (generate_campaign rt llm); discriminate H. }
        { intros [H _]. specialize (H x id eq_refl). rewrite F in H.
          discriminate H. }
      * destruct (findCampaignExampleByGoal (goal draft)) as [ex|].
        { split; [|intros [_ H]; discriminate H].
          intros [e H]. destruct (generate_campaign rt llm); discriminate H. }
        { split; [|intros _; eexists; reflexivity].
          intros _. split; [|reflexivity].
          intros x' id' H. injection H as <- <-. exact F. }
    + intros x' id' example H F. injection H as <- <-. rewrite F. split.
      * destruct (generate_campaign rt llm); eexists; reflexivity.
      * intros e He. rewrite He. reflexivity.
    + intros example N G. rewrite (N x id eq_refl), G. split.
      * destruct (generate_campaign rt llm); eexists; reflexivity.
      * intros e He. rewrite He. reflexivity.
  - (* no id *)
    split; [|split].
    + destruct (findCampaignExampleByGoal (goal draft)) as [ex|].
      * split; [|intros [_ H]; discriminate H].
        intros [e H]. destruct (generate_campaign rt llm); discriminate H.
      * split; [|intros _; eexists; reflexivity].
        intros _. split; [intros ? ? H; discriminate H | reflexivity].
    + intros ? ? ? H. discriminate H.
    + intros example _ G. rewrite G. split.
      * destruct (generate_campaign rt llm); eexists; reflexivity.
      * intros e He. rewrite He. reflexivity.
Qed.

End Examples.

End WithRuntime.

Lemma processUserInput_fallback_witness :
  exists r,
    processUserInput RefRuntime.runtime (str "hello") [] Samples.sample_draft
      [] (Content None) = inr r
    /\ campaignDraft RefRuntime.runtime r = Samples.sample_draft
    /\ isComplete RefRuntime.runtime r = VBool false.
Proof.
  destruct (processUserInput_fallback RefRuntime.runtime (str "hello") []
              Samples.sample_draft [] (Content None)
              (JsError PlainError (str "No response from OpenAI")) eq_refl)
    as [r [E [_ [D C]]]].
  exists r. auto.
Defined.

Lemma generateCampaignFromDraft_throws_iff_witness :
  generateCampaignFromDraft RefRuntime.runtime Samples.sample_find_by_id
    (fun _ => None) Samples.sample_matched_draft (Content None)
  = inr (createFallbackCampaign RefRuntime.runtime
           Samples.sample_matched_draft Samples.sample_example).
Proof.
  destruct (generateCampaignFromDraft_throws_iff RefRuntime.runtime
              Samples.sample_find_by_id (fun _ => None)
              Samples.sample_matched_draft (Content None)) as [_ [H _]].
  destruct (H _ _ Samples.sample_example eq_refl eq_refl) as [_ F].
  exact (F (JsError PlainError (str "No response from OpenAI")) eq_refl).
Defined.

End CampaignFacts.

(** ** cleanJsonResponse *)

Module CleanFacts.
Import AiUtils.

(** Replace the matches the goal inspects by their value [l]. *)
Ltac rmatch_is l :=
  match goal with
  | |- context [rmatch ?fl ?r ?st] => replace (rmatch fl r st) with l
  end.

Lemma rmatch_seq fl r1 r2 st :
  rmatch fl (Seq r1 r2) st = flat_map (rmatch fl r2) (rmatch fl r1 st).
Proof. destruct st as [[b a] c]. reflexivity. Qed.

Lemma rmatch_chr fl ch b x a c :
  rmatch fl (Chr ch) (b, x :: a, c)
  = if N.eqb (canonicalize (ignoreCase fl) x) (canonicalize (ignoreCase fl) ch)
    then [(x :: b, a, c)] else [].
Proof. reflexivity. Qed.

Lemma nil_of_no_member {A} (l : list A) : (forall x, ~ In x l) -> l = [].
Proof.
  destruct l as [|x l]; [reflexivity|]. intros H. destruct (H x). left.
  reflexivity.
Qed.

(** A pattern closed by [$] does not match before a character it does
    not accept. *)
Lemma rmatch_nil_unaccepted fl r b a c x :
  ends_at_eol r = true -> In x a -> accepts fl r x = false ->
  rmatch fl r (b, a, c) = [].
Proof.
  intros He Hin Hx. apply nil_of_no_member. intros st' H.
  pose proof (rmatch_eol fl r He _ _ H) as E.
  apply rmatch_consumed in H. destruct H as [m [A [_ C]]]. simpl in A.
  rewrite E, app_nil_r in A. subst m.
  rewrite forallb_forall in C. rewrite (C x Hin) in Hx. discriminate.
Qed.

Lemma exec_from_none_unaccepted fl r x :
  ends_at_eol r = true -> accepts fl r x = false ->
  (forall b, rmatch fl r (b, [], []) = []) ->
  forall v pre b, exec_from fl r pre b (v ++ [x]) = None.
Proof.
  intros He Hx Hnil. induction v as [|y v IH]; intros pre b;
    cbn [app exec_from].
  - rmatch_is (@nil mstate).
    + rewrite Hnil. reflexivity.
    + symmetry. apply rmatch_nil_unaccepted with (x := x); auto.
      left. reflexivity.
  - rmatch_is (@nil mstate).
    + apply IH.
    + symmetry. apply rmatch_nil_unaccepted with (x := x); auto.
      right. apply in_or_app. right. left. reflexivity.
Qed.

(** [^] matches at the start of the input only. *)
Lemma exec_from_bol_none fl r :
  forall a pre b x, exec_from fl (Seq Bol r) pre (x :: b) a = None.
Proof.
  induction a as [|y a IH]; intros pre b x; cbn [exec_from rmatch flat_map].
  - reflexivity.
  - apply IH.
Qed.

Lemma exec_bol_chr_none fl c r x u :
  N.eqb (canonicalize (ignoreCase fl) x) (canonicalize (ignoreCase fl) c)
  = false ->
  exec fl (Seq Bol (Seq (Chr c) r)) (x :: u) = None.
Proof.
  intros H. unfold exec. cbn [exec_from rmatch flat_map app]. rewrite H.
  cbn [flat_map]. apply exec_from_bol_none.
Qed.

Lemma trimStart_first x u : is_space x = false -> trimStart (x :: u) = x :: u.
Proof. intros H. simpl. rewrite H. reflexivity. Qed.

Lemma trimEnd_last v x : is_space x = false -> trimEnd (v ++ [x]) = v ++ [x].
Proof.
  intros H. unfold trimEnd. rewrite rev_app_distr. simpl. rewrite H.
  simpl. rewrite rev_involutive. reflexivity.
Qed.

Lemma trim_fixed t : brace_delimited t -> trim t = t.
Proof.
  intros [u [v [Hu Hv]]]. unfold trim.
  replace (trimStart t) with t
    by (rewrite Hu; symmetry; apply trimStart_first; reflexivity).
  rewrite Hv. apply trimEnd_last. reflexivity.
Qed.

Lemma strip_fences_fixed t : brace_delimited t -> strip_fences t = t.
Proof.
  intros Ht. pose proof Ht as [u [v [Hu Hv]]].
  assert (E1 : exec flag_i re_open_json t = None).
  { rewrite Hu. apply exec_bol_chr_none. reflexivity. }
  assert (E2 : exec flag_i re_open t = None).
  { rewrite Hu. apply exec_bol_chr_none. reflexivity. }
  assert (E3 : exec flag_i re_close t = None).
  { rewrite Hv. apply exec_from_none_unaccepted; reflexivity. }
  unfold strip_fences, replace_first. rewrite E1, E2, E3.
  apply trim_fixed. exact Ht.
Qed.

Lemma lastIndexOf_last x v : lastIndexOf x (v ++ [x]) = Some (length v).
Proof.
  induction v as [|y v IH]; simpl.
  - rewrite N.eqb_refl. reflexivity.
  - rewrite IH. reflexivity.
Qed.

Lemma extract_braces_fixed t : brace_delimited t -> extract_braces t = t.
Proof.
  intros [u [v [Hu Hv]]]. unfold extract_braces.
  replace (indexOf lbrace t) with (Some 0) by (rewrite Hu; reflexivity).
  replace (lastIndexOf rbrace t) with (Some (length v))
    by (rewrite Hv; symmetry; apply lastIndexOf_last).
  cbn [Nat.leb]. unfold substring. rewrite Nat.sub_0_r. cbn [skipn].
  apply firstn_all2. rewrite Hv, length_app. simpl. lia.
Qed.

Lemma exec_before_brace u :
  exec_from no_flags re_before_brace [] [] (lbrace :: u)
  = Some {| m_pre := []; m_text := []; m_caps := [];
            m_before := []; m_after := lbrace :: u |}.
Proof.
  cbn [exec_from].
  rmatch_is [(@nil char, lbrace :: u, @nil (nat * jstring))];
    [|reflexivity].
  cbn [rev]. rewrite Nat.sub_diag. reflexivity.
Qed.

Lemma replace_before_brace_fixed u :
  replace_all no_flags re_before_brace (const []) (lbrace :: u) = lbrace :: u.
Proof.
  unfold replace_all, scan. cbn [scan_from length].
  rewrite exec_before_brace. cbn [m_text m_after m_before scan_from].
  replace (exec_from no_flags re_before_brace [lbrace] [lbrace] u)
    with (@None rmatch_result)
    by (symmetry; apply (exec_from_bol_none no_flags)).
  reflexivity.
Qed.

Lemma exec_after_brace :
  forall v pre b,
    exec_from no_flags re_after_brace pre b (v ++ [rbrace])
    = Some {| m_pre := rev pre ++ v; m_text := [rbrace]; m_caps := [];
              m_before := rbrace :: rev v ++ b; m_after := [] |}.
Proof.
  induction v as [|x v IH]; intros pre b.
  - cbn [app exec_from].
    rmatch_is [(rbrace :: b, @nil char, @nil (nat * jstring))];
      [|reflexivity].
    rewrite app_nil_r. reflexivity.
  - cbn [app exec_from].
    rmatch_is (@nil mstate).
    + rewrite IH. cbn [rev]. rewrite <- !app_assoc. reflexivity.
    + symmetry.
      change re_after_brace
        with (Seq (Chr rbrace)
                (seqs [ws_star; Star true (Class false [CWord; CSpace]); Eol])).
      rewrite rmatch_seq, rmatch_chr.
      destruct (N.eqb _ _); [|reflexivity].
      cbn [flat_map]. rewrite app_nil_r.
      apply rmatch_nil_unaccepted with (x := rbrace); try reflexivity.
      apply in_or_app. right. left. reflexivity.
Qed.

Lemma replace_after_brace_fixed v :
  replace_all no_flags re_after_brace (const [rbrace]) (v ++ [rbrace])
  = v ++ [rbrace].
Proof.
  unfold replace_all, scan. rewrite length_app, Nat.add_1_r.
  cbn [scan_from]. rewrite exec_after_brace.
  cbn [m_text m_after m_before scan_from exec_from].
  rmatch_is (@nil mstate); [|reflexivity].
  cbn. rewrite !app_nil_r. reflexivity.
Qed.

Lemma strip_around_fixed t : brace_delimited t -> strip_around t = t.
Proof.
  intros Ht. pose proof Ht as [u [v [Hu Hv]]]. unfold strip_around.
  replace (replace_all no_flags re_before_brace (const []) t) with t
    by (rewrite Hu; symmetry; apply replace_before_brace_fixed).
  replace (replace_all no_flags re_after_brace (const [rbrace]) t) with t
    by (rewrite Hv; symmetry; apply replace_after_brace_fixed).
  apply trim_fixed. exact Ht.
Qed.

(** A text from [{] to [}] is left as it is. *)
Lemma cleanJsonResponse_fixed t :
  brace_delimited t -> cleanJsonResponse t = t.
Proof.
  intros Ht. unfold cleanJsonResponse.
  destruct t as [|x t']; [reflexivity|].
  rewrite strip_fences_fixed, extract_braces_fixed, strip_around_fixed;
    auto.
Qed.

Lemma campaign_cleanJsonResponse_fixed t :
  brace_delimited t -> CampaignAssistantAI.cleanJsonResponse t = t.
Proof.
  intros Ht. pose proof Ht as [u [v [Hu Hv]]].
  assert (E1 : exec flag_i re_open_json t = None).
  { rewrite Hu. apply exec_bol_chr_none. reflexivity. }
  assert (E2 : exec flag_i re_open t = None).
  { rewrite Hu. apply exec_bol_chr_none. reflexivity. }
  assert (E3 : exec flag_i CampaignAssistantAI.re_close t = None).
  { rewrite Hv. apply exec_from_none_unaccepted; reflexivity. }
  unfold CampaignAssistantAI.cleanJsonResponse, replace_first.
  rewrite E1, E2, E3. apply trim_fixed. exact Ht.
Qed.


(** *** The braces survive the fence stripping *)

Lemma is_brace_not_space x : is_brace x = true -> is_space x = false.
Proof.
  unfold is_brace. rewrite orb_true_iff, !N.eqb_eq.
  intros [->| ->]; reflexivity.
Qed.

Lemma filter_none {A} (f g : A -> bool) m :
  forallb f m = true -> (forall x, g x = true -> f x = false) ->
  filter g m = [].
Proof.
  intros Hf Hg. induction m as [|x m IH]; [reflexivity|].
  simpl in *. apply andb_true_iff in Hf. destruct Hf as [Hx Hm].
  destruct (g x) eqn:G; [|auto]. rewrite (Hg x G) in Hx. discriminate.
Qed.

Lemma braces_replace_first fl r s :
  (forall x, is_brace x = true -> accepts fl r x = false) ->
  braces (replace_first fl r (const []) s) = braces s.
Proof.
  intros Hacc. unfold replace_first.
  destruct (exec fl r s) as [m|] eqn:E; [|reflexivity].
  apply exec_from_head in E. destruct E as [b0 [a0 [l [H [_ Hs]]]]].
  assert (Hin : In (m_before m, m_after m, m_caps m)
                   (rmatch fl r (b0, a0, []))).
  { rewrite H. left. reflexivity. }
  apply rmatch_consumed in Hin. destruct Hin as [mm [A [_ C]]].
  simpl in A, Hs. rewrite Hs, A. unfold braces, const.
  rewrite !filter_app. cbn [filter app].
  rewrite (filter_none _ _ mm C Hacc). reflexivity.
Qed.

Lemma braces_trimStart s : braces (trimStart s) = braces s.
Proof.
  induction s as [|x s IH]; [reflexivity|]. simpl.
  destruct (is_space x) eqn:S; [|reflexivity].
  rewrite IH. destruct (is_brace x) eqn:B; [|reflexivity].
  rewrite (is_brace_not_space x B) in S. discriminate.
Qed.

Lemma braces_trim s : braces (trim s) = braces s.
Proof.
  unfold trim, trimEnd, braces.
  rewrite filter_rev. fold (braces (trimStart (rev (trimStart s)))).
  rewrite braces_trimStart. unfold braces. rewrite filter_rev, rev_involutive.
  apply braces_trimStart.
Qed.

Lemma braces_strip_fences s : braces (strip_fences s) = braces s.
Proof.
  assert (H : forall r,
    In r [re_open_json; re_open; re_close] ->
    forall x, is_brace x = true -> accepts flag_i r x = false).
  { intros r Hr x Hx. unfold is_brace in Hx.
    rewrite orb_true_iff, !N.eqb_eq in Hx.
    destruct Hr as [<-|[<-|[<-|[]]]]; destruct Hx as [->| ->]; reflexivity. }
  unfold strip_fences. rewrite braces_trim.
  rewrite !braces_replace_first; auto; apply H; simpl; auto.
Qed.

Lemma filter_split {A} (f : A -> bool) s :
  forall l1 a l2,
    filter f s = l1 ++ a :: l2 ->
    exists s1 s2, s = s1 ++ a :: s2 /\ filter f s1 = l1 /\ filter f s2 = l2.
Proof.
  induction s as [|x s IH]; intros l1 a l2 H; simpl in H.
  - destruct l1; discriminate.
  - destruct (f x) eqn:F.
    + destruct l1 as [|y l1]; simpl in H; injection H as -> H.
      * exists [], s. simpl. auto.
      * apply IH in H. destruct H as [s1 [s2 [-> [H1 H2]]]].
        exists (y :: s1), s2. simpl. rewrite F, H1. auto.
    + apply IH in H. destruct H as [s1 [s2 [-> [H1 H2]]]].
      exists (x :: s1), s2. simpl. rewrite F. auto.
Qed.

Lemma has_object_braces s : has_object s <-> has_object (braces s).
Proof.
  unfold has_object, braces. split.
  - intros [x [y [z ->]]].
    exists (filter is_brace x), (filter is_brace y), (filter is_brace z).
    rewrite filter_app. cbn [filter]. replace (is_brace lbrace) with true
      by reflexivity.
    rewrite filter_app. cbn [filter]. replace (is_brace rbrace) with true
      by reflexivity.
    reflexivity.
  - intros [x [y [z H]]].
    apply filter_split in H. destruct H as [s1 [s2 [-> [_ H2]]]].
    apply filter_split in H2. destruct H2 as [s3 [s4 [-> _]]].
    exists s1, s3, s4. reflexivity.
Qed.

Lemma has_object_strip_fences s : has_object s -> has_object (strip_fences s).
Proof.
  intros H. apply (proj2 (has_object_braces _)).
  rewrite braces_strip_fences. apply (proj1 (has_object_braces _)). exact H.
Qed.

(** *** The cut between the braces *)

Lemma indexOf_split x s i :
  indexOf x s = Some i -> exists p q, s = p ++ x :: q /\ length p = i.
Proof.
  revert i. induction s as [|y s IH]; intros i H; simpl in H; [discriminate|].
  destruct (N.eqb y x) eqn:E.
  - apply N.eqb_eq in E. subst y. injection H as <-. exists [], s. auto.
  - destruct (indexOf x s) as [k|]; [|discriminate]. injection H as <-.
    destruct (IH k eq_refl) as [p [q [-> Hp]]].
    exists (y :: p), q. simpl. auto.
Qed.

Lemma indexOf_bound x p q :
  exists i, indexOf x (p ++ x :: q) = Some i /\ i <= length p.
Proof.
  induction p as [|y p [i [IH Hi]]]; simpl.
  - rewrite N.eqb_refl. exists 0. auto.
  - destruct (N.eqb y x).
    + exists 0. split; [reflexivity | lia].
    + rewrite IH. exists (S i). split; [reflexivity | lia].
Qed.

Lemma lastIndexOf_split x s j :
  lastIndexOf x s = Some j -> exists p q, s = p ++ x :: q /\ length p = j.
Proof.
  revert j. induction s as [|y s IH]; intros j H; simpl in H; [discriminate|].
  destruct (lastIndexOf x s) as [k|].
  - injection H as <-. destruct (IH k eq_refl) as [p [q [-> Hp]]].
    exists (y :: p), q. simpl. auto.
  - destruct (N.eqb y x) eqn:E; [|discriminate].
    apply N.eqb_eq in E. subst y. injection H as <-. exists [], s. auto.
Qed.

Lemma lastIndexOf_bound x p q :
  exists j, lastIndexOf x (p ++ x :: q) = Some j /\ length p <= j.
Proof.
  induction p as [|y p [j [IH Hj]]]; simpl.
  - destruct (lastIndexOf x q) as [k|].
    + exists (S k). split; [reflexivity | lia].
    + rewrite N.eqb_refl. exists 0. auto.
  - rewrite IH. exists (S j). split; [reflexivity | lia].
Qed.

Lemma extract_braces_delimited c :
  has_object c -> brace_delimited (extract_braces c).
Proof.
  intros [x [y [z Hc]]]. unfold extract_braces.
  destruct (indexOf_bound lbrace x (y ++ rbrace :: z)) as [i [Hi Hix]].
  destruct (lastIndexOf_bound rbrace (x ++ lbrace :: y) z) as [j [Hj Hjx]].
  rewrite <- app_assoc in Hj. cbn [app] in Hj.
  rewrite <- Hc in Hi, Hj. rewrite Hi, Hj.
  rewrite length_app in Hjx. cbn [length] in Hjx.
  replace (i <=? j) with true by (symmetry; apply Nat.leb_le; lia).
  apply indexOf_split in Hi. destruct Hi as [p1 [q1 [H1 L1]]].
  apply lastIndexOf_split in Hj. destruct Hj as [p2 [q2 [H2 L2]]].
  unfold substring, brace_delimited.
  exists (firstn (j - i) q1), (skipn i p2). split.
  - rewrite H1, skipn_app, <- L1, skipn_all, Nat.sub_diag. cbn [skipn app].
    replace (j + 1 - length p1) with (S (j - length p1)) by lia.
    reflexivity.
  - rewrite H2, skipn_app.
    replace (i - length p2) with 0 by lia. cbn [skipn].
    rewrite firstn_app, length_skipn.
    replace (j + 1 - i - (length p2 - i)) with 1 by lia.
    rewrite firstn_all2 by (rewrite length_skipn; lia).
    reflexivity.
Qed.

Lemma cleanJsonResponse_has_object s :
  has_object s ->
  cleanJsonResponse s = extract_braces (strip_fences s)
  /\ brace_delimited (cleanJsonResponse s).
Proof.
  intros H.
  assert (Hd : brace_delimited (extract_braces (strip_fences s))).
  { apply extract_braces_delimited, has_object_strip_fences, H. }
  assert (E : cleanJsonResponse s = extract_braces (strip_fences s)).
  { unfold cleanJsonResponse. destruct s as [|c s'].
    - destruct H as [x [y [z H]]]. destruct x; discriminate.
    - apply strip_around_fixed. exact Hd. }
  rewrite E. auto.
Qed.

Lemma indexOf_first x s i :
  indexOf x s = Some i ->
  exists p q, s = p ++ x :: q /\ length p = i /\ lacks x p.
Proof.
  revert i. induction s as [|y s IH]; intros i H; simpl in H; [discriminate|].
  destruct (N.eqb_spec y x) as [E|E].
  - subst y. injection H as <-. exists [], s.
    split; [reflexivity|]. split; [reflexivity | intros []].
  - destruct (indexOf x s) as [k|]; [|discriminate]. injection H as <-.
    destruct (IH k eq_refl) as [p [q [-> [Hp Hl]]]].
    exists (y :: p), q. split; [reflexivity|]. split; [simpl; lia|].
    intros [Hy|Hin]; [exact (E Hy) | exact (Hl Hin)].
Qed.

Lemma lastIndexOf_none x s : lastIndexOf x s = None -> lacks x s.
Proof.
  induction s as [|y s IH]; simpl; intros H; [intros []|].
  destruct (lastIndexOf x s) as [k|]; [discriminate|].
  destruct (N.eqb_spec y x) as [E|E]; [discriminate|].
  intros [Hy|Hin]; [exact (E Hy) | exact (IH eq_refl Hin)].
Qed.

Lemma lastIndexOf_final x s j :
  lastIndexOf x s = Some j ->
  exists p q, s = p ++ x :: q /\ length p = j /\ lacks x q.
Proof.
  revert j. induction s as [|y s IH]; intros j H; simpl in H; [discriminate|].
  destruct (lastIndexOf x s) as [k|] eqn:L.
  - injection H as <-. destruct (IH k eq_refl) as [p [q [-> [Hp Hl]]]].
    exists (y :: p), q. split; [reflexivity|]. split; [simpl; lia | exact Hl].
  - destruct (N.eqb_spec y x) as [E|E]; [|discriminate].
    subst y. injection H as <-. exists [], s.
    split; [reflexivity|]. split; [reflexivity|].
    apply lastIndexOf_none. exact L.
Qed.

(** The cut is the part of the text that starts at its first [{] and ends
    at its last [}]. *)
Lemma extract_braces_span c :
  has_object c ->
  exists a b,
    c = a ++ extract_braces c ++ b /\ lacks lbrace a /\ lacks rbrace b.
Proof.
  intros [x [y [z Hc]]]. unfold extract_braces.
  destruct (indexOf_bound lbrace x (y ++ rbrace :: z)) as [i [Hi Hix]].
  destruct (lastIndexOf_bound rbrace (x ++ lbrace :: y) z) as [j [Hj Hjx]].
  rewrite <- app_assoc in Hj. cbn [app] in Hj.
  rewrite <- Hc in Hi, Hj. rewrite Hi, Hj.
  rewrite length_app in Hjx. cbn [length] in Hjx.
  replace (i <=? j) with true by (symmetry; apply Nat.leb_le; lia).
  apply indexOf_first in Hi. destruct Hi as [p1 [q1 [H1 [L1 N1]]]].
  apply lastIndexOf_final in Hj. destruct Hj as [p2 [q2 [H2 [L2 N2]]]].
  exists p1, q2. split; [|split; [exact N1 | exact N2]].
  assert (F : firstn i c = p1).
  { rewrite H1, <- L1, firstn_app, Nat.sub_diag, firstn_all.
    cbn [firstn]. apply app_nil_r. }
  assert (S2 : skipn (j + 1) c = q2).
  { rewrite H2, skipn_app, <- L2.
    rewrite skipn_all2 by lia.
    replace (length p2 + 1 - length p2) with 1 by lia. reflexivity. }
  unfold substring. rewrite <- F at 1. rewrite <- S2.
  replace (skipn (j + 1) c) with (skipn (j + 1 - i) (skipn i c))
    by (rewrite skipn_skipn; f_equal; lia).
  rewrite firstn_skipn. apply eq_sym, firstn_skipn.
Qed.

(** C8, amended: on an input in which a [{] comes before a [}] the
    cleaning returns the text from the first [{] to the last [}] of the
    fence-stripped input, and cleaning that again changes nothing. *)
Theorem cleanJsonResponse_idempotent_on_objects (s : jstring) :
  has_object s ->
  (exists a b,
     strip_fences s = a ++ cleanJsonResponse s ++ b
     /\ lacks lbrace a /\ lacks rbrace b)
  /\ cleanJsonResponse s = extract_braces (strip_fences s)
  /\ brace_delimited (cleanJsonResponse s)
  /\ cleanJsonResponse (cleanJsonResponse s) = cleanJsonResponse s.
Proof.
  intros H. destruct (cleanJsonResponse_has_object s H) as [E Hd].
  split; [|split; [exact E|]].
  - rewrite E. apply extract_braces_span, has_object_strip_fences, H.
  - split; [exact Hd | apply cleanJsonResponse_fixed; exact Hd].
Qed.

Lemma cleanJsonResponse_idempotent_on_objects_witness :
  cleanJsonResponse Samples.chatty_response = str "{x}"
  /\ cleanJsonResponse (cleanJsonResponse Samples.chatty_response)
     = cleanJsonResponse Samples.chatty_response.
Proof.
  split; [reflexivity|].
  apply (cleanJsonResponse_idempotent_on_objects Samples.chatty_response).
  exists (str "Sure: "), (str "x"), (str " ok"). reflexivity.
Defined.

(** C8 as stated fails: a fence left by the first cleaning is removed by
    the second. *)
Lemma cleanJsonResponse_not_idempotent :
  ~ (forall s, cleanJsonResponse (cleanJsonResponse s) = cleanJsonResponse s).
Proof.
  intros H. specialize (H Samples.fence_after_space).
  vm_compute in H. discriminate H.
Qed.

(** *** The two closing-fence patterns

    [/\s*```\s*$/] (aiUtils) against [/\s*```$/] (campaignAssistantAI). *)

Section SuffixClosed.
(** A property of the remaining input that every suffix inherits. *)
Variable P : jstring -> Prop.
Hypothesis P_suffix : forall m a, P (m ++ a) -> P a.
Variable fl : flags.

Lemma rmatch_suffix r st st' :
  In st' (rmatch fl r st) -> P (snd (fst st)) -> P (snd (fst st')).
Proof.
  intros Hin HP. apply rmatch_consumed in Hin. destruct Hin as [m [A _]].
  rewrite A in HP. exact (P_suffix _ _ HP).
Qed.

Lemma seq_tail_eq r q1 q2 :
  (forall b a c, P a -> rmatch fl q1 (b, a, c) = rmatch fl q2 (b, a, c)) ->
  forall b a c,
    P a -> rmatch fl (Seq r q1) (b, a, c) = rmatch fl (Seq r q2) (b, a, c).
Proof.
  intros H b a c HP. rewrite !rmatch_seq, !flat_map_concat_map. f_equal.
  apply map_ext_in. intros [[b1 a1] c1] Hin. apply H.
  exact (rmatch_suffix r (b, a, c) (b1, a1, c1) Hin HP).
Qed.

Lemma seq_tail_nil r q :
  (forall b a c, P a -> rmatch fl q (b, a, c) = []) ->
  forall b a c, P a -> rmatch fl (Seq r q) (b, a, c) = [].
Proof.
  intros H b a c HP. rewrite rmatch_seq. apply nil_of_no_member.
  intros st' Hin. apply in_flat_map in Hin.
  destruct Hin as [[[b1 a1] c1] [H1 H2]].
  rewrite (H b1 a1 c1) in H2; [exact H2|].
  exact (rmatch_suffix r (b, a, c) (b1, a1, c1) H1 HP).
Qed.

Lemma exec_from_eq r1 r2 :
  (forall b a c, P a -> rmatch fl r1 (b, a, c) = rmatch fl r2 (b, a, c)) ->
  forall a pre b,
    P a -> exec_from fl r1 pre b a = exec_from fl r2 pre b a.
Proof.
  intros H. induction a as [|x a IH]; intros pre b HP; cbn [exec_from];
    match goal with
    | |- context [rmatch fl r1 ?st] =>
        replace (rmatch fl r1 st) with (rmatch fl r2 st)
          by (symmetry; apply H; exact HP)
    end; [reflexivity|].
  rewrite IH; [reflexivity|]. exact (P_suffix [x] a HP).
Qed.

Lemma exec_from_none r :
  (forall b a c, P a -> rmatch fl r (b, a, c) = []) ->
  forall a pre b, P a -> exec_from fl r pre b a = None.
Proof.
  intros H. induction a as [|x a IH]; intros pre b HP; cbn [exec_from];
    (rmatch_is (@nil mstate); [|symmetry; apply H; exact HP]);
    [reflexivity|].
  apply IH. exact (P_suffix [x] a HP).
Qed.

End SuffixClosed.

Lemma ends_with_suffix x m a : ends_with x (m ++ a) -> ends_with x a.
Proof.
  intros [H|[v H]].
  - apply app_eq_nil in H. left. tauto.
  - destruct a as [|y a] using rev_ind; [left; reflexivity|].
    right. exists a. rewrite app_assoc in H.
    apply app_inj_tail in H. destruct H as [_ ->]. reflexivity.
Qed.

Lemma all_space_suffix m a : all_space (m ++ a) -> all_space a.
Proof.
  unfold all_space. rewrite forallb_app, andb_true_iff. tauto.
Qed.

Lemma space_not_backtick (x : N) :
  is_space x = true ->
  N.eqb (canonicalize true x) (canonicalize true backtick) = false.
Proof.
  intros Hs. apply N.eqb_neq. intros E.
  change (canonicalize true backtick) with 96%N in E.
  unfold canonicalize in E. cbn [andb] in E.
  destruct (N.leb_spec 97 x); destruct (N.leb_spec x 122); cbn [andb] in E;
    try lia; subst x; discriminate Hs.
Qed.

(** After the fence, [\s*$] and [$] match alike on an input that does not
    end with white space. *)
Lemma close_tail_eq x :
  is_space x = false ->
  forall b a c,
    ends_with x a ->
    rmatch flag_i (Seq ws_star Eol) (b, a, c) = rmatch flag_i Eol (b, a, c).
Proof.
  intros Hx b a c [->|[v ->]]; [reflexivity|].
  rmatch_is (@nil mstate).
  - destruct v; reflexivity.
  - symmetry. apply rmatch_nil_unaccepted with (x := x).
    + reflexivity.
    + apply in_or_app. right. left. reflexivity.
    + cbn. rewrite Hx. reflexivity.
Qed.

Lemma close_patterns_eq x :
  is_space x = false ->
  forall b a c,
    ends_with x a ->
    rmatch flag_i re_close (b, a, c)
    = rmatch flag_i CampaignAssistantAI.re_close (b, a, c).
Proof.
  intros Hx.
  change re_close
    with (Seq ws_star (Seq (Chr backtick) (Seq (Chr backtick)
            (Seq (Chr backtick) (Seq ws_star Eol))))).
  change CampaignAssistantAI.re_close
    with (Seq ws_star (Seq (Chr backtick) (Seq (Chr backtick)
            (Seq (Chr backtick) Eol)))).
  do 4 (apply (seq_tail_eq (ends_with x) (ends_with_suffix x))).
  apply close_tail_eq. exact Hx.
Qed.

(** [```$] does not match on an input that ends with white space. *)
Lemma campaign_close_none x :
  is_space x = true ->
  forall b a c,
    ends_with x a -> rmatch flag_i CampaignAssistantAI.re_close (b, a, c) = [].
Proof.
  intros Hx.
  change CampaignAssistantAI.re_close
    with (Seq ws_star (Seq (Chr backtick) (Seq (Chr backtick)
            (Seq (Chr backtick) Eol)))).
  do 3 (apply (seq_tail_nil (ends_with x) (ends_with_suffix x))).
  intros b a c [->|[v ->]]; [reflexivity|].
  rewrite rmatch_seq. destruct v as [|y v]; cbn [app]; rewrite rmatch_chr;
    change (ignoreCase flag_i) with true.
  - rewrite (space_not_backtick x Hx). reflexivity.
  - destruct (N.eqb _ _); [|reflexivity]. destruct v; reflexivity.
Qed.

(** No fence in white space. *)
Lemma close_none_in_space b a c :
  all_space a -> rmatch flag_i re_close (b, a, c) = [].
Proof.
  revert b a c.
  change re_close
    with (Seq ws_star (Seq (Chr backtick) (Seq (Chr backtick)
            (Seq (Chr backtick) (Seq ws_star Eol))))).
  apply (seq_tail_nil all_space all_space_suffix).
  intros b a c Ha. rewrite rmatch_seq.
  destruct a as [|y a]; [reflexivity|]. rewrite rmatch_chr.
  change (ignoreCase flag_i) with true. unfold all_space in Ha. cbn [forallb] in Ha.
  apply andb_true_iff in Ha. destruct Ha as [Hy _].
  rewrite (space_not_backtick y Hy). reflexivity.
Qed.

Lemma trimStart_split s :
  exists w, s = w ++ trimStart s /\ all_space w.
Proof.
  induction s as [|x s [w [E Hw]]]; [exists []; split; reflexivity|].
  simpl. destruct (is_space x) eqn:S.
  - exists (x :: w). unfold all_space in *. simpl. rewrite S, Hw, <- E.
    split; reflexivity.
  - exists []. split; reflexivity.
Qed.

Lemma trimEnd_split s : exists w, s = trimEnd s ++ w /\ all_space w.
Proof.
  unfold trimEnd. destruct (trimStart_split (rev s)) as [w [E Hw]].
  exists (rev w). split.
  - rewrite <- rev_app_distr, <- E, rev_involutive. reflexivity.
  - unfold all_space in *. rewrite forallb_forall in *.
    intros x Hx. apply Hw, in_rev, Hx.
Qed.

Lemma space_after_brace_suffix m a :
  space_after_brace (m ++ a) -> space_after_brace a.
Proof.
  intros [H|[p [w [E Hw]]]].
  - left. exact (all_space_suffix m a H).
  - apply app_eq_app in E. destruct E as [l [[_ E]|[_ E]]].
    + destruct l as [|y l]; cbn [app] in E.
      * right. exists [], w. rewrite <- E. auto.
      * injection E as _ E. left. rewrite E in Hw.
        exact (all_space_suffix l a Hw).
    + right. exists l, w. auto.
Qed.

Lemma close_none_after_brace b a c :
  space_after_brace a -> rmatch flag_i re_close (b, a, c) = [].
Proof.
  intros [H|[p [w [-> _]]]].
  - apply close_none_in_space. exact H.
  - apply rmatch_nil_unaccepted with (x := rbrace); try reflexivity.
    apply in_or_app. right. left. reflexivity.
Qed.

(** When the text left by the trim ends with [}], the closing fence of
    aiUtils finds nothing to remove. *)
Lemma close_none_before_trim s :
  (exists v, trim s = v ++ [rbrace]) -> exec flag_i re_close s = None.
Proof.
  intros [v Hv]. unfold trim in Hv.
  destruct (trimStart_split s) as [w1 [E1 _]].
  destruct (trimEnd_split (trimStart s)) as [w2 [E2 Hw2]].
  rewrite Hv in E2. rewrite E2 in E1.
  apply (exec_from_none space_after_brace space_after_brace_suffix).
  - intros b a c. apply close_none_after_brace.
  - right. exists (w1 ++ v), w2. split; [|exact Hw2].
    rewrite E1 at 1. rewrite <- !app_assoc. reflexivity.
Qed.

Lemma close_replacements_agree s :
  brace_delimited
    (trim (replace_first flag_i CampaignAssistantAI.re_close (const []) s)) ->
  replace_first flag_i re_close (const []) s
  = replace_first flag_i CampaignAssistantAI.re_close (const []) s.
Proof.
  intros Hd. destruct s as [|y s] using rev_ind; [reflexivity|]. clear IHs.
  destruct (is_space y) eqn:Sy.
  - assert (E : exec flag_i CampaignAssistantAI.re_close (s ++ [y]) = None).
    { apply (exec_from_none (ends_with y) (ends_with_suffix y)).
      - intros b a c. apply campaign_close_none. exact Sy.
      - right. exists s. reflexivity. }
    unfold replace_first in *. rewrite E in *.
    rewrite close_none_before_trim; [reflexivity|].
    destruct Hd as [u [v [_ Hv]]]. exists v. exact Hv.
  - unfold replace_first, exec.
    rewrite (exec_from_eq (ends_with y) (ends_with_suffix y) flag_i
               re_close CampaignAssistantAI.re_close
               (close_patterns_eq y Sy)); [reflexivity|].
    right. exists s. reflexivity.
Qed.

(** C2, amended: whenever the campaignAssistantAI version returns a text
    from [{] to [}], the aiUtils version returns the same text; so both
    leave such a text as it is. *)
Theorem cleanJsonResponse_agree_on_objects (s : jstring) :
  brace_delimited (CampaignAssistantAI.cleanJsonResponse s) ->
  cleanJsonResponse s = CampaignAssistantAI.cleanJsonResponse s.
Proof.
  intros Hd. unfold CampaignAssistantAI.cleanJsonResponse in *.
  assert (Hs : strip_fences s
               = trim (replace_first flag_i CampaignAssistantAI.re_close
                         (const [])
                         (replace_first flag_i re_open (const [])
                            (replace_first flag_i re_open_json (const []) s)))).
  { unfold strip_fences. rewrite close_replacements_agree; auto. }
  unfold cleanJsonResponse. destruct s as [|x s'].
  - destruct Hd as [u [_ [Hu _]]]. discriminate Hu.
  - rewrite Hs, extract_braces_fixed, strip_around_fixed; auto.
Qed.

Lemma cleanJsonResponse_agree_on_objects_witness :
  cleanJsonResponse Samples.fenced_object
  = CampaignAssistantAI.cleanJsonResponse Samples.fenced_object.
Proof.
  apply (cleanJsonResponse_agree_on_objects Samples.fenced_object).
  exists (tl Samples.sample_object), (removelast Samples.sample_object).
  split; vm_compute; reflexivity.
Defined.

(** C2 as stated fails: only the aiUtils version cuts the text around
    the braces away. *)
Lemma cleanJsonResponse_versions_differ :
  ~ (forall s, cleanJsonResponse s = CampaignAssistantAI.cleanJsonResponse s).
Proof.
  intros H. specialize (H Samples.chatty_response).
  vm_compute in H. discriminate H.
Qed.

(** C10: on the one-letter string [a] the word-boundary pattern puts
    a backspace escape on each side of the letter, and the literal reads
    back as backspace, a, backspace. *)
Theorem sanitizeJsonString_breaks_round_trip :
  sanitizeJsonString (str "a") = str "\ba\b"
  /\ RefRuntime.parse ([dquote] ++ sanitizeJsonString (str "a") ++ [dquote])
     = inr (VStr [8%N; 97%N; 8%N])
  /\ RefRuntime.parse ([dquote] ++ sanitizeJsonString (str "a") ++ [dquote])
     <> inr (VStr (str "a")).
Proof.
  repeat split; try (vm_compute; reflexivity).
  vm_compute. discriminate.
Qed.

End CleanFacts.

(** ** Deleting characters *)

Module SubseqFacts.

Lemma subseq_refl s : subseq s s.
Proof. induction s; constructor; assumption. Qed.

Lemma subseq_nil_l t : subseq [] t.
Proof. induction t; constructor; assumption. Qed.

Lemma subseq_app s s' t t' :
  subseq s t -> subseq s' t' -> subseq (s ++ s') (t ++ t').
Proof.
  intros H H'. induction H; simpl; try constructor; assumption.
Qed.

Lemma subseq_trans s t u : subseq s t -> subseq t u -> subseq s u.
Proof.
  intros H1 H2. revert s H1.
  induction H2 as [|x t u H2 IH|x t u H2 IH]; intros s H1.
  - exact H1.
  - constructor. apply IH. exact H1.
  - inversion H1; subst; constructor; apply IH; assumption.
Qed.

Lemma subseq_rev s t : subseq s t -> subseq (rev s) (rev t).
Proof.
  induction 1 as [|x s t H IH|x s t H IH]; simpl.
  - constructor.
  - rewrite <- (app_nil_r (rev s)). apply subseq_app; [exact IH|].
    apply subseq_nil_l.
  - apply subseq_app; [exact IH | apply subseq_refl].
Qed.

Lemma subseq_app_l m s : subseq s (m ++ s).
Proof.
  change s with ([] ++ s) at 1.
  apply subseq_app; [apply subseq_nil_l | apply subseq_refl].
Qed.

Lemma subseq_app_r s m : subseq s (s ++ m).
Proof.
  rewrite <- (app_nil_r s) at 1.
  apply subseq_app; [apply subseq_refl | apply subseq_nil_l].
Qed.

Lemma subseq_firstn n s : subseq (firstn n s) s.
Proof.
  rewrite <- (firstn_skipn n s) at 2. apply subseq_app_r.
Qed.

Lemma subseq_skipn n s : subseq (skipn n s) s.
Proof.
  rewrite <- (firstn_skipn n s) at 2. apply subseq_app_l.
Qed.

Lemma subseq_In s t x : subseq s t -> In x s -> In x t.
Proof.
  induction 1; simpl; intuition.
Qed.

Lemma subseq_length s t : subseq s t -> length s <= length t.
Proof. induction 1; simpl; lia. Qed.

Lemma subseq_filter (f : char -> bool) s t :
  subseq s t -> subseq (filter f s) (filter f t).
Proof.
  induction 1 as [|x s t H IH|x s t H IH]; simpl.
  - constructor.
  - destruct (f x); [constructor|]; exact IH.
  - destruct (f x); [constructor|]; exact IH.
Qed.

Lemma trimStart_subseq s : subseq (trimStart s) s.
Proof.
  induction s as [|x s IH]; simpl; [constructor|].
  destruct (is_space x); [constructor; exact IH | apply subseq_refl].
Qed.

Lemma trim_subseq s : subseq (trim s) s.
Proof.
  unfold trim, trimEnd.
  apply subseq_trans with (t := trimStart s); [|apply trimStart_subseq].
  rewrite <- (rev_involutive (trimStart s)) at 2.
  apply subseq_rev, trimStart_subseq.
Qed.

End SubseqFacts.
Import SubseqFacts.

(** ** Global matching *)

Module ScanFacts.
Import CleanFacts.

(** A match found by [exec] splits the text into what is before it, the
    match and what is after it. *)
Lemma exec_from_split fl r a pre b m :
  exec_from fl r pre b a = Some m ->
  rev pre ++ a = m_pre m ++ m_text m ++ m_after m.
Proof.
  intros E. apply exec_from_head in E.
  destruct E as [b0 [a0 [l [H [Ht Hs]]]]].
  assert (Hin : In (m_before m, m_after m, m_caps m)
                   (rmatch fl r (b0, a0, []))).
  { rewrite H. left. reflexivity. }
  apply rmatch_consumed in Hin. destruct Hin as [mm [A _]]. simpl in A.
  rewrite Hs, Ht, A. f_equal. f_equal.
  rewrite length_app, Nat.add_sub.
  rewrite firstn_app, Nat.sub_diag, firstn_all. simpl.
  symmetry. apply app_nil_r.
Qed.

(** Where the pattern does not match at the current position, the
    search and the scan go on from the next one. *)
Lemma exec_from_skip fl r pend b x a :
  rmatch fl r (b, x :: a, []) = [] ->
  exec_from fl r pend b (x :: a) = exec_from fl r (x :: pend) (x :: b) a.
Proof.
  intros H. cbn [exec_from].
  match goal with
  | |- context [rmatch ?f ?rr ?st] =>
      change (rmatch f rr st) with (rmatch fl r (b, x :: a, []))
  end.
  rewrite H. reflexivity.
Qed.

Lemma scan_from_skip fl r fuel pend b x a :
  rmatch fl r (b, x :: a, []) = [] ->
  scan_from (S fuel) fl r pend b (x :: a)
  = scan_from (S fuel) fl r (x :: pend) (x :: b) a.
Proof.
  intros H. cbn [scan_from]. rewrite (exec_from_skip _ _ _ _ _ _ H).
  destruct (exec_from fl r (x :: pend) (x :: b) a) as [m|]; [reflexivity|].
  cbn [rev]. rewrite <- app_assoc. reflexivity.
Qed.

(** The matches and the text between them make up the input. *)
Lemma scan_from_partition fl r :
  forall fuel pend b a,
    rev pend ++ a
    = concat (List.map (fun m => m_pre m ++ m_text m)
                (fst (scan_from fuel fl r pend b a)))
      ++ snd (scan_from fuel fl r pend b a).
Proof.
  induction fuel as [|fuel IH]; intros pend b a; cbn [scan_from].
  - reflexivity.
  - destruct (exec_from fl r pend b a) as [m|] eqn:E; [|reflexivity].
    apply exec_from_split in E. rewrite E.
    destruct (m_text m) as [|y t] eqn:T;
      [destruct (m_after m) as [|x a2] eqn:A|].
    + cbn [fst snd List.map concat]. rewrite T, !app_nil_r. reflexivity.
    + specialize (IH [x] (x :: m_before m) a2).
      destruct (scan_from fuel fl r [x] (x :: m_before m) a2) as [rest tail].
      cbn [fst snd List.map concat rev app] in *.
      rewrite T, <- !app_assoc, <- IH. reflexivity.
    + specialize (IH [] (m_before m) (m_after m)).
      destruct (scan_from fuel fl r [] (m_before m) (m_after m))
        as [rest tail].
      cbn [fst snd List.map concat rev app] in *.
      rewrite T, <- !app_assoc, <- IH. reflexivity.
Qed.

(** What holds of every match [exec] finds holds of every match of a
    scan. *)
Lemma scan_from_Forall fl r (Q : rmatch_result -> Prop) :
  (forall pre b a m, exec_from fl r pre b a = Some m -> Q m) ->
  forall fuel pend b a, Forall Q (fst (scan_from fuel fl r pend b a)).
Proof.
  intros HQ. induction fuel as [|fuel IH]; intros pend b a; cbn [scan_from].
  - constructor.
  - destruct (exec_from fl r pend b a) as [m|] eqn:E; [|constructor].
    apply HQ in E.
    destruct (m_text m) as [|y t]; [destruct (m_after m) as [|x a2]|].
    + cbn. auto.
    + specialize (IH [x] (x :: m_before m) a2).
      destruct (scan_from fuel fl r [x] (x :: m_before m) a2) as [rest tail].
      cbn in *. auto.
    + specialize (IH [] (m_before m) (m_after m)).
      destruct (scan_from fuel fl r [] (m_before m) (m_after m))
        as [rest tail].
      cbn in *. auto.
Qed.

Lemma concat_subseq (f g : rmatch_result -> jstring) ms :
  Forall (fun m => subseq (f m) (g m)) ms ->
  subseq (concat (List.map f ms)) (concat (List.map g ms)).
Proof.
  induction 1; simpl; [constructor|]. apply subseq_app; assumption.
Qed.

(** A replacement that puts a part of each match in its place only
    deletes. *)
Lemma replace_all_subseq fl r f s :
  (forall pre b a m, exec_from fl r pre b a = Some m ->
                     subseq (f m) (m_text m)) ->
  subseq (replace_all fl r f s) s.
Proof.
  intros Hf. unfold replace_all, scan.
  pose proof (scan_from_partition fl r (S (length s)) [] [] s) as P.
  pose proof (scan_from_Forall fl r _ Hf (S (length s)) [] [] s) as F.
  destruct (scan_from (S (length s)) fl r [] [] s) as [ms tail].
  cbn [fst snd rev app] in *. rewrite P.
  apply subseq_app; [|apply subseq_refl].
  apply concat_subseq. revert F. apply Forall_impl.
  intros m Hm. apply subseq_app; [apply subseq_refl | exact Hm].
Qed.

Lemma replace_first_subseq fl r f s :
  (forall pre b a m, exec_from fl r pre b a = Some m ->
                     subseq (f m) (m_text m)) ->
  subseq (replace_first fl r f s) s.
Proof.
  intros Hf. unfold replace_first, exec.
  destruct (exec_from fl r [] [] s) as [m|] eqn:E; [|apply subseq_refl].
  pose proof (exec_from_split _ _ _ _ _ _ E) as P.
  cbn [rev app] in P. rewrite P.
  apply subseq_app; [apply subseq_refl|].
  apply subseq_app; [|apply subseq_refl]. exact (Hf _ _ _ _ E).
Qed.

(** A replacement by a fixed text puts nothing else into the text. *)
Lemma replace_all_In fl r rep s x :
  In x (replace_all fl r (AiUtils.const rep) s) -> In x rep \/ In x s.
Proof.
  unfold replace_all, scan.
  pose proof (scan_from_partition fl r (S (length s)) [] [] s) as P.
  destruct (scan_from (S (length s)) fl r [] [] s) as [ms tail].
  cbn [fst snd rev app] in *. rewrite P. clear P.
  rewrite !in_app_iff. intros [H|H]; [|auto].
  induction ms as [|m ms IH]; simpl in H; [easy|].
  rewrite !in_app_iff in H. cbn [List.map concat]. rewrite !in_app_iff.
  unfold AiUtils.const in *. tauto.
Qed.

End ScanFacts.

(** ** More on the two cleanJsonResponse *)

Module CleanShape.
Import AiUtils CleanFacts ScanFacts.

(** *** The result is trimmed *)

Lemma trimStart_idempotent s : trimStart (trimStart s) = trimStart s.
Proof.
  induction s as [|x s IH]; [reflexivity|]. simpl.
  destruct (is_space x) eqn:E; [exact IH|]. simpl. rewrite E. reflexivity.
Qed.

Lemma trimStart_app_last l x :
  is_space x = false -> trimStart (l ++ [x]) = trimStart l ++ [x].
Proof.
  intros Hx. induction l as [|y l IH]; simpl.
  - rewrite Hx. reflexivity.
  - destruct (is_space y); [exact IH | reflexivity].
Qed.

Lemma trimStart_head s x u : trimStart s = x :: u -> is_space x = false.
Proof.
  induction s as [|y s IH]; simpl; [discriminate|].
  destruct (is_space y) eqn:E; [exact IH|].
  intros H. injection H as <- _. exact E.
Qed.

Lemma trimEnd_head x u :
  is_space x = false -> exists w, trimEnd (x :: u) = x :: w.
Proof.
  intros Hx. unfold trimEnd. simpl. rewrite (trimStart_app_last _ _ Hx).
  rewrite rev_app_distr. simpl. eauto.
Qed.

Lemma trimEnd_idempotent s : trimEnd (trimEnd s) = trimEnd s.
Proof.
  unfold trimEnd. rewrite rev_involutive, trimStart_idempotent. reflexivity.
Qed.

Lemma trim_idempotent s : trim (trim s) = trim s.
Proof.
  unfold trim.
  assert (H : trimStart (trimEnd (trimStart s)) = trimEnd (trimStart s)).
  { destruct (trimStart s) as [|x u] eqn:E; [reflexivity|].
    apply trimStart_head in E. destruct (trimEnd_head x u E) as [w ->].
    apply trimStart_first. exact E. }
  rewrite H. apply trimEnd_idempotent.
Qed.

Lemma trim_head s x u : trim s = x :: u -> is_space x = false.
Proof.
  unfold trim. destruct (trimStart s) as [|y v] eqn:E; [discriminate|].
  apply trimStart_head in E. destruct (trimEnd_head y v E) as [w ->].
  intros H. injection H as <- _. exact E.
Qed.

Lemma trim_last s v x : trim s = v ++ [x] -> is_space x = false.
Proof.
  unfold trim, trimEnd. intros H.
  apply (f_equal (@rev char)) in H.
  rewrite rev_involutive, rev_app_distr in H. simpl in H.
  exact (trimStart_head _ _ _ H).
Qed.

(** X1: both cleanJsonResponse return a trimmed text: trimming it again
    changes nothing, and it neither starts nor ends with white space. *)
Theorem cleanJsonResponse_trimmed (s : jstring) :
  let a := AiUtils.cleanJsonResponse s in
  let c := CampaignAssistantAI.cleanJsonResponse s in
  (trim a = a /\ trim c = c)
  /\ (forall x u, a = x :: u \/ c = x :: u -> is_space x = false)
  /\ (forall v x, a = v ++ [x] \/ c = v ++ [x] -> is_space x = false).
Proof.
  assert (Ha : exists t, AiUtils.cleanJsonResponse s = trim t).
  { unfold AiUtils.cleanJsonResponse, strip_around.
    destruct s; [exists []; reflexivity | eauto]. }
  assert (Hc : exists t, CampaignAssistantAI.cleanJsonResponse s = trim t).
  { unfold CampaignAssistantAI.cleanJsonResponse. eauto. }
  destruct Ha as [ta Ea]. destruct Hc as [tc Ec]. cbv zeta.
  rewrite Ea, Ec. split; [split; apply trim_idempotent|]. split.
  - intros x u [H|H]; exact (trim_head _ _ _ H).
  - intros v x [H|H]; exact (trim_last _ _ _ H).
Qed.

(** *** Only deletions *)

Lemma const_nil_subseq fl r :
  forall pre b a m, exec_from fl r pre b a = Some m ->
                    subseq (const [] m) (m_text m).
Proof. intros. apply subseq_nil_l. Qed.

Lemma after_brace_text :
  forall pre b a m,
    exec_from no_flags re_after_brace pre b a = Some m ->
    subseq (const [rbrace] m) (m_text m).
Proof.
  intros pre b a m E. apply exec_from_head in E.
  destruct E as [b0 [a0 [l [H [Ht _]]]]].
  change re_after_brace
    with (Seq (Chr rbrace)
            (seqs [ws_star; Star true (Class false [CWord; CSpace]); Eol]))
    in H.
  rewrite rmatch_seq in H. destruct a0 as [|x a0]; [discriminate H|].
  rewrite rmatch_chr in H. cbn [ignoreCase no_flags canonicalize andb] in H.
  destruct (N.eqb_spec x rbrace) as [->|]; [|discriminate H].
  cbn [flat_map] in H. rewrite app_nil_r in H.
  match type of H with
  | ?matches = _ =>
      assert (Hin : In (m_before m, m_after m, m_caps m) matches)
        by (rewrite H; left; reflexivity)
  end.
  apply rmatch_consumed in Hin. destruct Hin as [mm [A _]]. simpl in A.
  rewrite Ht, A. cbn [length]. rewrite length_app.
  replace (S (length mm + length (m_after m)) - length (m_after m))
    with (S (length mm)) by lia.
  cbn [firstn]. unfold const. apply subseq_keep, subseq_nil_l.
Qed.

Lemma strip_fences_subseq s : subseq (strip_fences s) s.
Proof.
  unfold strip_fences.
  eapply subseq_trans; [apply trim_subseq|].
  eapply subseq_trans; [apply replace_first_subseq, const_nil_subseq|].
  eapply subseq_trans; [apply replace_first_subseq, const_nil_subseq|].
  apply replace_first_subseq, const_nil_subseq.
Qed.

Lemma extract_braces_subseq s : subseq (extract_braces s) s.
Proof.
  unfold extract_braces, substring.
  destruct (indexOf lbrace s) as [i|]; [|apply subseq_refl].
  destruct (lastIndexOf rbrace s) as [j|]; [|apply subseq_refl].
  destruct (i <=? j); [|apply subseq_refl].
  eapply subseq_trans; [apply subseq_firstn | apply subseq_skipn].
Qed.

Lemma strip_around_subseq s : subseq (strip_around s) s.
Proof.
  unfold strip_around.
  eapply subseq_trans; [apply trim_subseq|].
  eapply subseq_trans; [apply replace_all_subseq, after_brace_text|].
  apply replace_all_subseq, const_nil_subseq.
Qed.

(** X2: both cleanJsonResponse only delete: the result is the input with
    some characters left out, nothing added and nothing reordered. *)
Theorem cleanJsonResponse_only_deletes (s : jstring) :
  subseq (AiUtils.cleanJsonResponse s) s
  /\ subseq (CampaignAssistantAI.cleanJsonResponse s) s.
Proof.
  split.
  - unfold AiUtils.cleanJsonResponse. destruct s; [constructor|].
    eapply subseq_trans; [apply strip_around_subseq|].
    eapply subseq_trans; [apply extract_braces_subseq|].
    apply strip_fences_subseq.
  - unfold CampaignAssistantAI.cleanJsonResponse.
    eapply subseq_trans; [apply trim_subseq|].
    eapply subseq_trans; [apply replace_first_subseq, const_nil_subseq|].
    eapply subseq_trans; [apply replace_first_subseq, const_nil_subseq|].
    apply replace_first_subseq, const_nil_subseq.
Qed.

(** *** What the fence stripping removes *)

Lemma filter_replace_first (g : char -> bool) fl r s :
  (forall x, g x = true -> accepts fl r x = false) ->
  filter g (replace_first fl r (const []) s) = filter g s.
Proof.
  intros Hacc. unfold replace_first, exec.
  destruct (exec_from fl r [] [] s) as [m|] eqn:E; [|reflexivity].
  pose proof (exec_from_split _ _ _ _ _ _ E) as P. cbn [rev app] in P.
  apply exec_from_head in E. destruct E as [b0 [a0 [l [H [Ht _]]]]].
  assert (Hin : In (m_before m, m_after m, m_caps m)
                   (rmatch fl r (b0, a0, []))).
  { rewrite H. left. reflexivity. }
  apply rmatch_consumed in Hin. destruct Hin as [mm [A [_ C]]]. simpl in A.
  assert (Hm : m_text m = mm).
  { rewrite Ht, A, length_app, Nat.add_sub, firstn_app, Nat.sub_diag,
      firstn_all. apply app_nil_r. }
  rewrite P, Hm. unfold const. rewrite !filter_app. cbn [filter app].
  rewrite (filter_none _ _ mm C Hacc). reflexivity.
Qed.

Lemma filter_trimStart (g : char -> bool) s :
  (forall x, g x = true -> is_space x = false) ->
  filter g (trimStart s) = filter g s.
Proof.
  intros Hg. induction s as [|x s IH]; [reflexivity|]. simpl.
  destruct (is_space x) eqn:S; [|reflexivity].
  rewrite IH. destruct (g x) eqn:G; [|reflexivity].
  rewrite (Hg x G) in S. discriminate.
Qed.

Lemma filter_trim (g : char -> bool) s :
  (forall x, g x = true -> is_space x = false) ->
  filter g (trim s) = filter g s.
Proof.
  intros Hg. unfold trim, trimEnd.
  rewrite filter_rev, (filter_trimStart g _ Hg), filter_rev, rev_involutive.
  apply filter_trimStart. exact Hg.
Qed.

Lemma fence_text_accepts r x :
  In r [re_open_json; re_open; re_close; CampaignAssistantAI.re_close] ->
  negb (CampaignAssistantAI.fence_text x) = true ->
  accepts flag_i r x = false.
Proof.
  unfold CampaignAssistantAI.fence_text. rewrite negb_true_iff.
  cbn [existsb str List.map list_ascii_of_string].
  rewrite !orb_false_iff. intros Hr H.
  destruct H as [Hs [Hb [Hj [Hs' [Ho [Hn _]]]]]].
  destruct Hr as [<-|[<-|[<-|[<-|[]]]]];
    cbn [accepts re_open_json re_open re_close CampaignAssistantAI.re_close
           seqs app fence lit str List.map list_ascii_of_string ws_star
           class_accepts existsb item_accepts xorb ignoreCase flag_i];
    change (canonicalize true backtick) with 96%N in *;
    rewrite ?Hs, ?Hb, ?Hj, ?Hs', ?Ho, ?Hn; reflexivity.
Qed.

(** X3: the campaignAssistantAI cleanJsonResponse, and the fence stripping
    of the aiUtils one, remove only white space, back-ticks and letters of
    [json]: every other character of the input is kept, in order. *)
Theorem fence_stripping_keeps_payload (s : jstring) :
  CampaignAssistantAI.payload (CampaignAssistantAI.cleanJsonResponse s)
  = CampaignAssistantAI.payload s
  /\ CampaignAssistantAI.payload (strip_fences s)
     = CampaignAssistantAI.payload s.
Proof.
  assert (Hsp : forall x, negb (CampaignAssistantAI.fence_text x) = true ->
                          is_space x = false).
  { intros x. unfold CampaignAssistantAI.fence_text.
    rewrite negb_true_iff, orb_false_iff. tauto. }
  unfold CampaignAssistantAI.payload, CampaignAssistantAI.cleanJsonResponse,
    strip_fences.
  split; rewrite (filter_trim _ _ Hsp);
    rewrite !filter_replace_first; auto;
    intros x; apply fence_text_accepts; simpl; auto.
Qed.

(** *** The aiUtils version against the campaignAssistantAI one *)

Lemma exec_bol_pre fl r s m :
  exec_from fl (Seq Bol r) [] [] s = Some m -> m_pre m = [].
Proof.
  destruct s as [|x s]; cbn [exec_from]; intros H.
  - case_rmatch H E; [discriminate|]. injection H as <-. reflexivity.
  - case_rmatch H E.
    + rewrite exec_from_bol_none in H. discriminate.
    + injection H as <-. reflexivity.
Qed.

(** An anchored deletion leaves a suffix of the text. *)
Lemma replace_first_bol_suffix fl r s :
  exists p, s = p ++ replace_first fl (Seq Bol r) (const []) s.
Proof.
  unfold replace_first, exec.
  destruct (exec_from fl (Seq Bol r) [] [] s) as [m|] eqn:E.
  - pose proof (exec_from_split _ _ _ _ _ _ E) as P.
    rewrite (exec_bol_pre _ _ _ _ E) in *. cbn [rev app const] in *.
    exists (m_text m). exact P.
  - exists []. reflexivity.
Qed.

Lemma strip_fences_campaign x v :
  is_space x = false ->
  strip_fences (v ++ [x]) = CampaignAssistantAI.cleanJsonResponse (v ++ [x]).
Proof.
  intros Hx. unfold strip_fences, CampaignAssistantAI.cleanJsonResponse.
  f_equal. unfold replace_first at 1 4. unfold exec.
  rewrite (exec_from_eq (ends_with x) (ends_with_suffix x) flag_i
             re_close CampaignAssistantAI.re_close
             (close_patterns_eq x Hx)); [reflexivity|].
  change re_open with (Seq Bol (seqs (fence ++ [ws_star]))).
  change re_open_json
    with (Seq Bol (seqs (fence ++ [lit (str "json"); ws_star]))).
  destruct (replace_first_bol_suffix flag_i
              (seqs (fence ++ [lit (str "json"); ws_star])) (v ++ [x]))
    as [p1 E1].
  destruct (replace_first_bol_suffix flag_i (seqs (fence ++ [ws_star]))
              (replace_first flag_i
                 (Seq Bol (seqs (fence ++ [lit (str "json"); ws_star])))
                 (const []) (v ++ [x])))
    as [p2 E2].
  apply (ends_with_suffix x p2). rewrite <- E2.
  apply (ends_with_suffix x p1). rewrite <- E1.
  right. exists v. reflexivity.
Qed.

(** X4: on a text that does not end with white space the aiUtils version
    is the campaignAssistantAI version followed by the cut between the
    braces and the clean-up around them. *)
Theorem cleanJsonResponse_extends_campaign (x : char) (v : jstring) :
  is_space x = false ->
  AiUtils.cleanJsonResponse (v ++ [x])
  = strip_around
      (extract_braces (CampaignAssistantAI.cleanJsonResponse (v ++ [x]))).
Proof.
  intros Hx. rewrite <- (strip_fences_campaign x v Hx).
  unfold AiUtils.cleanJsonResponse. destruct v; reflexivity.
Qed.

Lemma cleanJsonResponse_extends_campaign_witness :
  AiUtils.cleanJsonResponse Samples.chatty_response
  = strip_around
      (extract_braces
         (CampaignAssistantAI.cleanJsonResponse Samples.chatty_response)).
Proof.
  apply (cleanJsonResponse_extends_campaign 107%N (str "Sure: {x} o")).
  reflexivity.
Defined.

Lemma replace_all_none fl r f s :
  exec_from fl r [] [] s = None -> replace_all fl r f s = s.
Proof.
  intros H. unfold replace_all, scan. cbn [scan_from]. rewrite H.
  reflexivity.
Qed.

Lemma lacks_suffix c m a : lacks c (m ++ a) -> lacks c a.
Proof. unfold lacks. intros H Hin. apply H, in_or_app. auto. Qed.

Lemma indexOf_lacks c s : lacks c s -> indexOf c s = None.
Proof.
  unfold lacks. induction s as [|x s IH]; [reflexivity|]. simpl. intros H.
  destruct (N.eqb_spec x c) as [->|_]; [exfalso; auto|].
  rewrite IH; auto.
Qed.

Lemma braces_nil_lacks s :
  braces s = [] -> lacks lbrace s /\ lacks rbrace s.
Proof.
  unfold braces, lacks. intros H.
  split; intros Hin;
    assert (Hf : In _ (filter is_brace s))
      by (apply filter_In; split; [exact Hin | reflexivity]);
    rewrite H in Hf; exact Hf.
Qed.

Lemma before_brace_none b a c :
  lacks lbrace a -> rmatch no_flags re_before_brace (b, a, c) = [].
Proof.
  revert b a c.
  change re_before_brace
    with (Seq Bol (Seq ws_star
            (Seq (Star false (Class false [CWord; CSpace]))
               (Lookahead (Chr lbrace))))).
  do 3 (apply (seq_tail_nil (lacks lbrace) (lacks_suffix lbrace))).
  intros b a c Ha. destruct a as [|x a]; [reflexivity|].
  cbn [rmatch ignoreCase no_flags canonicalize andb].
  destruct (N.eqb_spec x lbrace) as [->|_]; [|reflexivity].
  exfalso. apply Ha. left. reflexivity.
Qed.

Lemma after_brace_none b a c :
  lacks rbrace a -> rmatch no_flags re_after_brace (b, a, c) = [].
Proof.
  intros Ha.
  change re_after_brace
    with (Seq (Chr rbrace)
            (seqs [ws_star; Star true (Class false [CWord; CSpace]); Eol])).
  rewrite rmatch_seq. destruct a as [|x a]; [reflexivity|].
  rewrite rmatch_chr. cbn [ignoreCase no_flags canonicalize andb].
  destruct (N.eqb_spec x rbrace) as [->|_]; [|reflexivity].
  exfalso. apply Ha. left. reflexivity.
Qed.

(** X5: on a text without braces the aiUtils version does nothing beyond
    the fence stripping: there is nothing to cut and nothing around a
    brace to remove. *)
Theorem cleanJsonResponse_without_braces (s : jstring) :
  braces s = [] -> AiUtils.cleanJsonResponse s = strip_fences s.
Proof.
  intros Hb. unfold AiUtils.cleanJsonResponse.
  destruct s as [|y s']; [reflexivity|]. set (s := y :: s') in *.
  rewrite <- braces_strip_fences in Hb.
  destruct (braces_nil_lacks _ Hb) as [Hl Hr].
  unfold extract_braces. rewrite (indexOf_lacks _ _ Hl).
  unfold strip_around.
  rewrite (replace_all_none no_flags re_before_brace).
  - rewrite (replace_all_none no_flags re_after_brace).
    + unfold strip_fences. apply trim_idempotent.
    + apply (exec_from_none (lacks rbrace) (lacks_suffix rbrace));
        [intros b a c; apply after_brace_none | exact Hr].
  - apply (exec_from_none (lacks lbrace) (lacks_suffix lbrace));
      [intros b a c; apply before_brace_none | exact Hl].
Qed.

Lemma cleanJsonResponse_without_braces_witness :
  AiUtils.cleanJsonResponse Samples.fence_after_space
  = strip_fences Samples.fence_after_space.
Proof.
  apply (cleanJsonResponse_without_braces Samples.fence_after_space).
  reflexivity.
Defined.


End CleanShape.

(** ** sanitizeJsonString *)

Module SanitizeFacts.
Import AiUtils CleanFacts ScanFacts.

Lemma scan_chr c rep :
  forall a fuel pend b,
    length a < fuel ->
    concat (List.map (fun m => m_pre m ++ const rep m)
              (fst (scan_from fuel no_flags (Chr c) pend b a)))
    ++ snd (scan_from fuel no_flags (Chr c) pend b a)
    = rev pend ++ flat_map (subst_char c rep) a.
Proof.
  induction a as [|x a IH]; intros fuel pend b Hf;
    (destruct fuel as [|fuel]; [inversion Hf|]).
  - reflexivity.
  - cbn [flat_map]. unfold subst_char at 1.
    destruct (N.eqb x c) eqn:E.
    + cbn [scan_from exec_from rmatch ignoreCase no_flags canonicalize andb].
      rewrite E. cbn [length].
      replace (S (length a) - length a) with 1 by lia.
      cbn [firstn m_text m_after m_before].
      specialize (IH fuel [] (x :: b) ltac:(simpl in Hf; lia)).
      destruct (scan_from fuel no_flags (Chr c) [] (x :: b) a) as [rest tail].
      cbn [fst snd List.map concat m_pre rev app] in *.
      rewrite <- !app_assoc, IH. reflexivity.
    + rewrite scan_from_skip.
      * rewrite IH by (simpl in Hf; lia). cbn [rev].
        rewrite <- app_assoc. reflexivity.
      * cbn [rmatch ignoreCase no_flags canonicalize andb]. rewrite E.
        reflexivity.
Qed.

(** A global replacement of one character is the character-wise
    substitution. *)
Lemma replace_all_chr c rep s :
  replace_all no_flags (Chr c) (const rep) s = flat_map (subst_char c rep) s.
Proof.
  unfold replace_all, scan.
  pose proof (scan_chr c rep s (S (length s)) [] [] (Nat.lt_succ_diag_r _))
    as H.
  destruct (scan_from (S (length s)) no_flags (Chr c) [] [] s) as [ms tail].
  exact H.
Qed.

Lemma subst_char_In c rep s x :
  In x (flat_map (subst_char c rep) s) -> In x rep \/ (In x s /\ x <> c).
Proof.
  rewrite in_flat_map. intros [y [Hy Hx]]. unfold subst_char in Hx.
  destruct (N.eqb_spec y c) as [->|Hn]; [auto|].
  destruct Hx as [<-|[]]. auto.
Qed.

(** X6: the text sanitizeJsonString returns holds no raw line feed,
    carriage return, tab or form feed. *)
Theorem sanitizeJsonString_no_raw_control (s : jstring) (x : char) :
  In x (sanitizeJsonString s) -> is_escaped_control x = false.
Proof.
  unfold sanitizeJsonString. rewrite !replace_all_chr. intros H.
  assert (Hrep : forall rep,
            In rep [str "\b"; str "\f"; str "\t"; str "\r"; str "\n";
                    [backslash; dquote]; [backslash; backslash]] ->
            In x rep -> is_escaped_control x = false).
  { intros rep Hrep Hin. simpl in Hrep.
    repeat (destruct Hrep as [<-|Hrep];
            [simpl in Hin;
             repeat (destruct Hin as [<-|Hin]; [reflexivity|]);
             destruct Hin|]).
    destruct Hrep. }
  assert (Huse : forall rep,
            In x rep ->
            In rep [str "\b"; str "\f"; str "\t"; str "\r"; str "\n";
                    [backslash; dquote]; [backslash; backslash]] ->
            is_escaped_control x = false) by eauto.
  apply replace_all_In in H.
  destruct H as [H|H]; [apply (Huse _ H); simpl; auto 8|].
  apply subst_char_In in H.
  destruct H as [H|[H N12]]; [apply (Huse _ H); simpl; auto 8|].
  apply subst_char_In in H.
  destruct H as [H|[H N9]]; [apply (Huse _ H); simpl; auto 8|].
  apply subst_char_In in H.
  destruct H as [H|[H N13]]; [apply (Huse _ H); simpl; auto 8|].
  apply subst_char_In in H.
  destruct H as [H|[H N10]]; [apply (Huse _ H); simpl; auto 8|].
  unfold is_escaped_control.
  rewrite !orb_false_iff, !N.eqb_neq. auto.
Qed.

Lemma sanitizeJsonString_no_raw_control_witness :
  In 92%N (sanitizeJsonString [newline]) /\ is_escaped_control 92%N = false.
Proof.
  assert (H : In 92%N (sanitizeJsonString [newline]))
    by (vm_compute; auto).
  split; [exact H|].
  exact (sanitizeJsonString_no_raw_control [newline] 92%N H).
Defined.

End SanitizeFacts.

(** ** More on parseJsonSafely *)

Module ParseShape.
Import AiUtils CleanFacts ScanFacts CleanShape.

Lemma not_quote_canonical (x : N) :
  x <> dquote ->
  N.eqb (canonicalize true x) (canonicalize true dquote) = false.
Proof.
  intros Hx. apply N.eqb_neq. intros E.
  change (canonicalize true dquote) with 34%N in E. unfold dquote in Hx.
  unfold canonicalize in E. cbn [andb] in E.
  destruct (N.leb_spec 97 x); destruct (N.leb_spec x 122); cbn [andb] in E;
    lia.
Qed.

(** A pattern that starts with a double quote finds nothing in a text
    without one. *)
Lemma quoted_pattern_none fl r s :
  lacks dquote s -> exec fl (Seq (Chr dquote) r) s = None.
Proof.
  intros Hs. apply (exec_from_none (lacks dquote) (lacks_suffix dquote));
    [|exact Hs].
  intros b a c Ha. rewrite rmatch_seq. destruct a as [|x a]; [reflexivity|].
  rewrite rmatch_chr.
  assert (Hx : x <> dquote) by (intros ->; apply Ha; left; reflexivity).
  destruct fl as [[|] d]; cbn [ignoreCase].
  - rewrite (not_quote_canonical x Hx). reflexivity.
  - cbn [canonicalize andb]. apply N.eqb_neq in Hx. rewrite Hx. reflexivity.
Qed.

Section WithRuntime.
Variable rt : Runtime.

Lemma replace_all_with_none fl r f s :
  exec fl r s = None -> replace_all_with rt fl r f s = inr s.
Proof.
  intros H. unfold replace_all_with, scan, exec in *. cbn [scan_from].
  rewrite H. reflexivity.
Qed.

Lemma extractField_default s name d :
  lacks dquote s -> extractField rt s name d = inr d.
Proof.
  intros Hs. unfold extractField, re_field. cbn [seqs].
  rewrite (quoted_pattern_none _ _ _ Hs). reflexivity.
Qed.

Lemma extractArray_default s name d :
  lacks dquote s -> extractArray rt s name d = inr d.
Proof.
  intros Hs. unfold extractArray, re_array_field. cbn [seqs].
  rewrite (quoted_pattern_none _ _ _ Hs). reflexivity.
Qed.

(** X7: a text without any double quote that JSON.parse refuses comes
    back as the object of defaults: score 0, category potential, empty
    strings and empty arrays. *)
Theorem parseJsonSafely_without_quotes (s msg : jstring) :
  JSON_parse rt s = inl msg -> lacks dquote s ->
  parseJsonSafely rt s = inr (default_object rt).
Proof.
  intros Hp Hs. unfold parseJsonSafely. rewrite Hp.
  assert (Hfixed : parse_fixed rt s = inl (JsError SyntaxError msg)).
  { unfold parse_fixed, re_string_member, re_array_member. cbn [seqs].
    rewrite (replace_all_with_none _ _ _ _ (quoted_pattern_none _ _ _ Hs)).
    cbn [bind].
    rewrite (replace_all_with_none _ _ _ _ (quoted_pattern_none _ _ _ Hs)).
    cbn [bind]. unfold json_parse. rewrite Hp. reflexivity. }
  rewrite Hfixed. cbn [try_catch]. unfold reconstruct.
  rewrite !(extractField_default _ _ _ Hs), !(extractArray_default _ _ _ Hs).
  reflexivity.
Qed.

Lemma extractField_shape s name d v :
  extractField rt s name d = inr v -> v = d \/ exists t, v = VStr t.
Proof.
  unfold extractField. destruct (exec flag_i (re_field name) s) as [m|].
  - destruct (capture 1 (m_caps m)); [|discriminate].
    cbn. intros H. injection H as <-. eauto.
  - intros H. injection H as <-. auto.
Qed.

Lemma extractArray_shape s name d v :
  extractArray rt s name d = inr v ->
  v = d \/ exists l, v = VArr (List.map VStr l).
Proof.
  unfold extractArray.
  destruct (exec flag_is (re_array_field name) s) as [m|].
  - destruct (capture 1 (m_caps m)) as [g|]; [|discriminate].
    cbn [method_of_capture bind ret].
    destruct (match_all no_flags re_string_item g) as [items|].
    + intros H. injection H as <-. right.
      exists (List.map (fun item => unescape_quotes (slice_1_m1 item)) items).
      rewrite map_map. reflexivity.
    + intros H. injection H as <-. auto.
  - intros H. injection H as <-. auto.
Qed.

(** A reconstructed field is its default or what the pattern found. *)
Ltac reconstructed_field :=
  match goal with
  | H : ?v = _ \/ _ |- reconstructed_value _ ?v =>
      destruct H as [->|[? ->]]; unfold reconstructed_value;
      first [ left; eexists; reflexivity
            | right; left; exists []; reflexivity
            | right; left; eexists; reflexivity
            | right; right; reflexivity ]
  end.

(** X8: what the third attempt returns is an object with the thirteen
    keys score, reasons, ..., cultureKeywords, in that order, each holding
    a string, an array of strings or (for a score not found) the number
    0; a score found in the text is kept as a string. *)
Theorem reconstruct_shape (s : jstring) (o : value (num rt)) :
  reconstruct rt s = inr o ->
  exists props,
    o = VObj props
    /\ List.map fst props = reconstructed_keys
    /\ Forall (fun kv => reconstructed_value rt (snd kv)) props.
Proof.
  unfold reconstruct.
  repeat
    match goal with
    | |- context [extractField rt s ?n ?d] =>
        let v := fresh "v" in
        let E := fresh "E" in
        destruct (extractField rt s n d) as [?|v] eqn:E;
        [cbn [bind]; discriminate|];
        apply extractField_shape in E; cbn [bind]
    | |- context [extractArray rt s ?n ?d] =>
        let v := fresh "v" in
        let E := fresh "E" in
        destruct (extractArray rt s n d) as [?|v] eqn:E;
        [cbn [bind]; discriminate|];
        apply extractArray_shape in E; cbn [bind]
    end.
  intros H. injection H as <-. eexists. split; [reflexivity|].
  split; [reflexivity|].
  repeat (apply Forall_cons; [cbn [snd]; reconstructed_field|]).
  apply Forall_nil.
Qed.

End WithRuntime.

Lemma parseJsonSafely_without_quotes_witness :
  parseJsonSafely RefRuntime.runtime (str "garbage")
  = inr (default_object RefRuntime.runtime).
Proof.
  apply (parseJsonSafely_without_quotes RefRuntime.runtime (str "garbage")
           RefRuntime.syntax_error).
  - reflexivity.
  - unfold lacks. simpl. intuition discriminate.
Defined.

Lemma reconstruct_shape_witness :
  exists props,
    default_object RefRuntime.runtime = VObj props
    /\ List.map fst props = reconstructed_keys.
Proof.
  destruct (reconstruct_shape RefRuntime.runtime (str "garbage")
              (default_object RefRuntime.runtime) eq_refl)
    as [props [E [K _]]].
  exists props. auto.
Defined.

End ParseShape.

(** ** More on jobExtraction.ts *)

Module JobExtractionMore.
Import JobExtraction JobExtractionFacts.

Section WithRuntime.
Variable rt : Runtime.

Lemma employment_choice (v : value (num rt)) :
  In (match v with
      | VStr s =>
          if existsb (jstring_eqb s) employment_types
          then s else str "full-time"
      | _ => str "full-time"
      end) employment_types.
Proof.
  destruct v; try (left; reflexivity).
  destruct (existsb (jstring_eqb s) employment_types) eqn:E;
    [apply existsb_jstring_eqb; exact E | left; reflexivity].
Qed.

Lemma validateJsonStructure_employment_type data d :
  validateJsonStructure rt data = inr d ->
  In (employment_type d) employment_types.
Proof.
  unfold validateJsonStructure.
  destruct data; try discriminate;
    rewrite !get_prop_field by discriminate; cbn [bind];
    intros H; injection H as <-;
    first [ exact (employment_choice VUndefined)
          | exact (employment_choice
                     (field (VObj props) (str "employment_type"))) ].
Qed.

Lemma createFallbackJobData_employment_type jobUrl :
  In (employment_type (createFallbackJobData rt jobUrl)) employment_types.
Proof.
  unfold createFallbackJobData. cbn [employment_type].
  repeat match goal with
         | |- context [if ?c then _ else _] => destruct c
         end; simpl; auto.
Qed.

(** X9: whatever extractJobFromUrl returns, for any outcome of the
    request, carries the original URL and one of the four employment
    types. *)
Theorem extractJobFromUrl_returned (jobUrl : jstring) (llm : completion rt)
    (d : ExtractedJobData) :
  extractJobFromUrl rt jobUrl llm = inr d ->
  apply_url d = jobUrl /\ In (employment_type d) employment_types.
Proof.
  unfold extractJobFromUrl.
  assert (Hfb : forall e,
    (_ <- message_includes_JSON rt e ;;
     ret (createFallbackJobData rt jobUrl)) = inr d ->
    apply_url d = jobUrl /\ In (employment_type d) employment_types).
  { intros e. destruct (message_includes_JSON rt e); cbn [bind ret];
      [discriminate|].
    intros H. injection H as <-. split; [reflexivity|].
    apply createFallbackJobData_employment_type. }
  destruct (response_of rt llm) as [e|response]; cbn [bind try_catch];
    [apply Hfb|].
  destruct (AiUtils.parseJsonSafely rt (AiUtils.cleanJsonResponse response))
    as [e|v]; cbn [bind try_catch]; [apply Hfb|].
  destruct (validateJsonStructure rt v) as [e|r] eqn:V;
    cbn [bind try_catch ret]; [apply Hfb|].
  intros H. injection H as <-. split; [reflexivity|].
  cbn [set_apply_url employment_type].
  exact (validateJsonStructure_employment_type v r V).
Qed.

(** X10: extractJobFromUrl fails in one way only: the request is
    rejected with a value whose [message] has no [includes], which makes
    the catch block itself throw.  A rejection with an Error object gives
    the fallback data. *)
Theorem extractJobFromUrl_throws_iff (jobUrl : jstring)
    (llm : completion rt) :
  ((exists e', extractJobFromUrl rt jobUrl llm = inl e')
   <-> (exists e e', llm = Rejected rt e
                     /\ message_includes_JSON rt e = inl e'))
  /\ (forall k msg,
        extractJobFromUrl rt jobUrl (Rejected rt (JsError k msg))
        = inr (createFallbackJobData rt jobUrl)).
Proof.
  split; [|reflexivity]. split.
  - intros [e' H]. destruct llm as [e|content].
    + exists e. unfold extractJobFromUrl in H. cbn in H.
      destruct (message_includes_JSON rt e) as [e2|b] eqn:M;
        [eauto | discriminate].
    + destruct (JobExtractionFacts.extractJobFromUrl_returns rt jobUrl content)
        as [d Hd].
      rewrite Hd in H. discriminate.
  - intros [e [e' [-> M]]]. exists e'. unfold extractJobFromUrl. cbn.
    rewrite M. reflexivity.
Qed.

Lemma split_nonempty sep s : split sep s <> [].
Proof.
  induction s as [|x s IH]; simpl; [discriminate|].
  destruct (N.eqb x sep); [discriminate|].
  destruct (split sep s); [contradiction | discriminate].
Qed.

Lemma split_many sep s : (1 <? length (split sep s)) = true <-> In sep s.
Proof.
  rewrite Nat.ltb_lt. induction s as [|x s IH]; simpl.
  - split; [lia | tauto].
  - destruct (N.eqb_spec x sep) as [->|Hn].
    + pose proof (split_nonempty sep s) as Hs.
      destruct (split sep s); [contradiction|]. simpl. split; [auto | lia].
    + pose proof (split_nonempty sep s) as Hs.
      destruct (split sep s) as [|p ps]; [contradiction|].
      simpl in *. rewrite IH. split; [auto|]. intros [H|H]; [contradiction|].
      exact H.
Qed.

(** X11: the fallback data has a company name exactly when the URL
    parses and its host, with the first [www.] taken out, has a dot. *)
Theorem createFallbackJobData_company_name (jobUrl : jstring) :
  company_name (createFallbackJobData rt jobUrl) <> None
  <-> exists host,
        URL_hostname rt jobUrl = Some host
        /\ In 46%N (replace_str (str "www.") [] host).
Proof.
  unfold createFallbackJobData. cbn [company_name]. unfold company_of_url.
  destruct (URL_hostname rt jobUrl) as [host|].
  - destruct (1 <? length (split 46%N (replace_str (str "www.") [] host)))
      eqn:E.
    + apply split_many in E. split; [eauto | discriminate].
    + split; [contradiction|]. intros [h [Hh Hin]]. injection Hh as <-.
      apply split_many in Hin. rewrite Hin in E. discriminate.
  - split; [contradiction|]. intros [h [Hh _]]. discriminate.
Qed.

(** X12: generateJobDescription returns for every outcome of the
    request, a rejection with any value included, and what it returns
    when its try block throws is the fixed fallback description. *)
Theorem generateJobDescription_returns (jobTitle : jstring)
    (additionalContext : option jstring) (llm : completion rt) :
  exists r,
    generateJobDescription rt jobTitle additionalContext llm = inr r
    /\ (forall e, describe_job rt jobTitle llm = inl e ->
                  r = fallbackJobDescription jobTitle
                  /\ length (generated_requirements r) = 7)
    /\ (forall e, llm = Rejected rt e -> r = fallbackJobDescription jobTitle)
    /\ (forall x s,
          llm = Content (Some (x :: s)) ->
          AiUtils.parseJsonSafely rt (AiUtils.cleanJsonResponse (x :: s))
          = inr VNull ->
          r = fallbackJobDescription jobTitle).
Proof.
  unfold generateJobDescription.
  destruct (describe_job rt jobTitle llm) as [e|r] eqn:D; cbn [try_catch ret].
  - eexists. split; [reflexivity|]. repeat split; reflexivity.
  - exists r. split; [reflexivity|]. split; [discriminate|]. split.
    + intros e ->. discriminate D.
    + intros x s -> P. unfold describe_job in D.
      cbn [response_of bind ret] in D. rewrite P in D. discriminate D.
Qed.

End WithRuntime.

Lemma extractJobFromUrl_returned_witness :
  In (employment_type
        (createFallbackJobData RefRuntime.runtime Samples.sample_url))
     employment_types.
Proof.
  apply (extractJobFromUrl_returned RefRuntime.runtime Samples.sample_url
           (Content None)
           (createFallbackJobData RefRuntime.runtime Samples.sample_url)).
  reflexivity.
Defined.

Lemma extractJobFromUrl_throws_iff_witness :
  exists e',
    extractJobFromUrl RefRuntime.runtime Samples.sample_url
      (Rejected RefRuntime.runtime (JsThrown VNull)) = inl e'.
Proof.
  apply (extractJobFromUrl_throws_iff RefRuntime.runtime Samples.sample_url
           (Rejected RefRuntime.runtime (JsThrown VNull))).
  eexists. eexists. split; reflexivity.
Defined.

Lemma createFallbackJobData_company_name_witness :
  company_name (createFallbackJobData RefRuntime.runtime Samples.sample_url)
  <> None.
Proof.
  apply (createFallbackJobData_company_name RefRuntime.runtime
           Samples.sample_url).
  eexists. split; [reflexivity|]. vm_compute.
  repeat (first [left; reflexivity | right]).
Defined.

End JobExtractionMore.

(** ** More on openai.ts *)

Module OpenAIMore.
Import OpenAI.

Section WithRuntime.
Variable rt : Runtime.

Lemma get_prop_returns (o : value (num rt)) k :
  is_nullish o = false -> get_prop o k = inr (field o k).
Proof.
  intros H. apply JobExtractionFacts.get_prop_field;
    intros ->; discriminate H.
Qed.

Lemma get_prop_throws (o : value (num rt)) k :
  is_nullish o = true -> exists e, get_prop o k = inl e.
Proof.
  destruct o; try discriminate; intros _; eexists; reflexivity.
Qed.

Lemma to_email_step_well_formed email index st :
  to_email_step rt email index = inr st -> well_formed_step rt index st.
Proof.
  unfold to_email_step. destruct (is_nullish email) eqn:N.
  - destruct (get_prop_throws email (str "type") N) as [e1 E1].
    destruct (get_prop_throws email (str "delayUnit") N) as [e2 E2].
    rewrite E1, E2. destruct (index =? 0); discriminate.
  - rewrite !(get_prop_returns _ _ N).
    destruct (Nat.eqb_spec index 0) as [I|I]; cbn [bind ret];
      intros H; injection H as <-; unfold well_formed_step;
      cbn [id type delayUnit delay];
      (split; [reflexivity|]);
      (split; [destruct (is_the_string _ _); auto|]).
    + split; [auto|]. split; [auto|]. eexists. reflexivity.
    + split.
      * destruct (field email (str "delayUnit")); auto.
        destruct (jstring_eqb s (str "immediately")) eqn:A.
        { apply JobExtractionFacts.jstring_eqb_eq in A. subst s. auto. }
        destruct (jstring_eqb s (str "business days")) eqn:B; auto.
        apply JobExtractionFacts.jstring_eqb_eq in B. subst s. auto.
      * split; [intros I0; contradiction|]. eexists. reflexivity.
Qed.

Lemma mapM_index_well_formed items :
  forall index steps,
    mapM_index (to_email_step rt) index items = inr steps ->
    well_formed_steps rt index steps /\ length steps = length items.
Proof.
  induction items as [|x items IH]; intros index steps H; simpl in H.
  - injection H as <-. simpl. auto.
  - destruct (to_email_step rt x index) as [e|st] eqn:E;
      [discriminate|]. cbn [bind] in H.
    destruct (mapM_index (to_email_step rt) (S index) items) as [e|rest] eqn:R;
      [discriminate|]. cbn [bind ret] in H. injection H as <-.
    apply to_email_step_well_formed in E.
    destruct (IH _ _ R) as [W L]. simpl. auto.
Qed.

Lemma fallbackSequence_well_formed prompt :
  well_formed_steps rt 0 (fallbackSequence rt prompt).
Proof.
  unfold fallbackSequence, well_formed_steps, well_formed_step.
  cbn [id type delayUnit delay].
  repeat split; auto; try (intros; discriminate); eexists; reflexivity.
Qed.

(** X13: for every outcome of the request generateCampaignSequence
    returns a sequence whose steps are well formed: ids step-1, step-2,
    ... in order, type email or connection, unit immediately or business
    days, a numeric delay, and a first step sent immediately. *)
Theorem generateCampaignSequence_well_formed (prompt : CampaignPrompt)
    (llm : completion rt) :
  exists steps,
    generateCampaignSequence rt prompt llm = inr steps
    /\ well_formed_steps rt 0 steps.
Proof.
  unfold generateCampaignSequence.
  destruct (generate_steps rt llm) as [e|steps] eqn:G; cbn [try_catch ret].
  - eexists. split; [reflexivity | apply fallbackSequence_well_formed].
  - exists steps. split; [reflexivity|].
    unfold generate_steps in G.
    destruct (response_of rt llm) as [e|response]; [discriminate|].
    cbn [bind] in G.
    destruct (AiUtils.json_parse rt response) as [e|emailData];
      [discriminate|]. cbn [bind] in G.
    destruct emailData; try discriminate. cbn [map_value] in G.
    apply mapM_index_well_formed in G. tauto.
Qed.

Lemma to_email_step_returns email index :
  is_nullish email = false -> exists st, to_email_step rt email index = inr st.
Proof.
  intros N. unfold to_email_step. rewrite !(get_prop_returns _ _ N).
  destruct (index =? 0); cbn [bind ret]; eexists; reflexivity.
Qed.

Lemma to_email_step_throws email index :
  is_nullish email = true -> exists e, to_email_step rt email index = inl e.
Proof.
  intros N. unfold to_email_step.
  destruct (get_prop_throws email (str "type") N) as [e1 E1].
  destruct (get_prop_throws email (str "delayUnit") N) as [e2 E2].
  rewrite E1, E2. destruct (index =? 0); cbn [bind ret]; eexists; reflexivity.
Qed.

Lemma mapM_index_returns items :
  forall index,
    forallb (fun x => negb (is_nullish x)) items = true ->
    exists steps, mapM_index (to_email_step rt) index items = inr steps.
Proof.
  induction items as [|x items IH]; intros index H; simpl in *.
  - eexists. reflexivity.
  - apply andb_true_iff in H. destruct H as [Hx Hi].
    apply negb_true_iff in Hx.
    destruct (to_email_step_returns x index Hx) as [st ->].
    destruct (IH (S index) Hi) as [rest ->]. eexists. reflexivity.
Qed.

Lemma mapM_index_throws items :
  forall index,
    forallb (fun x => negb (is_nullish x)) items = false ->
    exists e, mapM_index (to_email_step rt) index items = inl e.
Proof.
  induction items as [|x items IH]; intros index H; simpl in *;
    [discriminate|].
  destruct (is_nullish x) eqn:N.
  - destruct (to_email_step_throws x index N) as [e ->]. eexists. reflexivity.
  - destruct (to_email_step_returns x index N) as [st ->]. cbn [bind].
    simpl in H. destruct (IH (S index) H) as [e ->]. eexists. reflexivity.
Qed.

(** X14: when the response parses to an array, the sequence has one step
    per element if no element is null or undefined (so an empty array
    gives an empty sequence, not the fallback), and is the three-step
    fallback if some element is. *)
Theorem generateCampaignSequence_array (prompt : CampaignPrompt)
    (x : char) (r : jstring) (items : list (value (num rt))) :
  JSON_parse rt (x :: r) = inr (VArr items) ->
  (forallb (fun v => negb (is_nullish v)) items = true ->
   exists steps,
     generateCampaignSequence rt prompt (Content (Some (x :: r))) = inr steps
     /\ length steps = length items)
  /\ (forallb (fun v => negb (is_nullish v)) items = false ->
      generateCampaignSequence rt prompt (Content (Some (x :: r)))
      = inr (fallbackSequence rt prompt)).
Proof.
  intros P. unfold generateCampaignSequence, generate_steps,
    AiUtils.json_parse.
  cbn [response_of bind ret]. rewrite P. unfold bind, ret, map_value. split.
  - intros H. destruct (mapM_index_returns items 0 H) as [steps E].
    rewrite E. exists steps. split; [reflexivity|].
    apply mapM_index_well_formed in E. tauto.
  - intros H. destruct (mapM_index_throws items 0 H) as [e E].
    rewrite E. reflexivity.
Qed.

Lemma fallbackName_nonempty campaignType : fallbackName campaignType <> [].
Proof.
  unfold fallbackName. intros H. apply app_eq_nil in H.
  destruct H as [_ H]. discriminate H.
Qed.

(** X15: generateCampaignName returns for every outcome of the request,
    and never the empty string: the name is the trimmed response when that
    is not empty, and [campaignType Campaign] when the request fails or
    the response is missing, empty or white space only. *)
Theorem generateCampaignName_nonempty (campaignType targetAudience
    campaignGoal : jstring) (llm : completion rt) :
  exists name,
    generateCampaignName rt campaignType targetAudience campaignGoal llm
    = inr name
    /\ name <> []
    /\ (forall content,
          llm = Content (Some content) -> trim content <> [] ->
          name = trim content)
    /\ ((forall content, llm = Content (Some content) -> trim content = []) ->
        name = fallbackName campaignType).
Proof.
  unfold generateCampaignName, name_of_response.
  destruct llm as [e|[content|]]; cbn [content_of bind ret try_catch option_map].
  - eexists. split; [reflexivity|].
    split; [apply fallbackName_nonempty|]. split; [discriminate | reflexivity].
  - destruct (trim content) as [|y t] eqn:T.
    + eexists. split; [reflexivity|].
      split; [apply fallbackName_nonempty|]. split; [|reflexivity].
      intros c H. injection H as <-. rewrite T. contradiction.
    + eexists. split; [reflexivity|]. split; [discriminate|]. split.
      * intros c H _. injection H as <-. symmetry. exact T.
      * intros H. specialize (H content eq_refl). rewrite T in H.
        discriminate H.
  - eexists. split; [reflexivity|].
    split; [apply fallbackName_nonempty|]. split; [discriminate | reflexivity].
Qed.

End WithRuntime.

Lemma generateCampaignSequence_array_witness :
  exists steps,
    generateCampaignSequence RefRuntime.runtime Samples.sample_prompt
      (Content (Some (str "[{}, {}]"))) = inr steps
    /\ length steps = 2.
Proof.
  apply (generateCampaignSequence_array RefRuntime.runtime
           Samples.sample_prompt 91%N (str "{}, {}]") [VObj []; VObj []]);
    reflexivity.
Defined.

End OpenAIMore.

(** ** More on campaignAssistantAI.ts *)

Module CampaignMore.
Import CampaignAssistantAI.

Section WithRuntime.
Variable rt : Runtime.

Lemma jstring_eqb_refl k : jstring_eqb k k = true.
Proof. apply JobExtractionFacts.jstring_eqb_eq. reflexivity. Qed.

Lemma lookup_set_prop (k k' : jstring) (v : value (num rt)) ps :
  lookup k (set_prop k' v ps)
  = if jstring_eqb k k' then Some v else lookup k ps.
Proof.
  induction ps as [|[k0 v0] ps IH]; simpl.
  - reflexivity.
  - destruct (jstring_eqb k' k0) eqn:E; simpl.
    + apply JobExtractionFacts.jstring_eqb_eq in E. subst k0.
      destruct (jstring_eqb k k'); reflexivity.
    + rewrite IH. destruct (jstring_eqb k k0) eqn:E0; [|reflexivity].
      apply JobExtractionFacts.jstring_eqb_eq in E0. subst k0.
      destruct (jstring_eqb k k') eqn:E1; [|reflexivity].
      apply JobExtractionFacts.jstring_eqb_eq in E1. subst k'.
      rewrite jstring_eqb_refl in E. discriminate E.
Qed.

Lemma lookup_app (k : jstring) (l1 l2 : list (jstring * value (num rt))) :
  lookup k (l1 ++ l2)
  = match lookup k l1 with Some v => Some v | None => lookup k l2 end.
Proof.
  induction l1 as [|[k0 v0] l1 IH]; simpl; [reflexivity|].
  destruct (jstring_eqb k k0); [reflexivity | exact IH].
Qed.

(** Defining the properties of [l] one after the other: the last
    definition of a key is the one read afterwards. *)
Lemma lookup_fold_define (k : jstring) (l : list (jstring * value (num rt))) :
  forall target,
    lookup k
      (fold_left (fun acc kv => set_prop (fst kv) (snd kv) acc) l target)
    = match lookup k (rev l) with
      | Some v => Some v
      | None => lookup k target
      end.
Proof.
  induction l as [|[k0 v0] l IH]; intros target; simpl.
  - reflexivity.
  - rewrite IH, lookup_app, lookup_set_prop. simpl.
    destruct (lookup k (rev l)); [reflexivity|].
    destruct (jstring_eqb k k0); reflexivity.
Qed.

Lemma lookup_defined (k : jstring) (l : list (jstring * value (num rt))) :
  lookup k l <> None <-> In k (map fst l).
Proof.
  induction l as [|[k0 v0] l IH]; simpl.
  - split; [intros H; contradiction | intros []].
  - destruct (jstring_eqb k k0) eqn:E.
    + apply JobExtractionFacts.jstring_eqb_eq in E. subst k0.
      split; [auto | discriminate].
    + rewrite IH. split; [auto|]. intros [H|H]; [|exact H].
      subst k0. rewrite jstring_eqb_refl in E. discriminate E.
Qed.

Lemma spread_into_keeps (k : jstring) target (source : value (num rt)) :
  lookup k target <> None -> lookup k (spread_into rt target source) <> None.
Proof.
  intros H. destruct source; cbn [spread_into]; try exact H;
    rewrite lookup_fold_define;
    match goal with |- context [lookup k (rev ?l)] =>
      destruct (lookup k (rev l)); [discriminate | exact H] end.
Qed.

(** X16: the object spread of line 149 for an object source: a property
    the response's campaignDraft defines takes the response's value (the
    last one if the key occurs twice), every other property keeps the value
    of the current draft. *)
Theorem spread_into_object (target ps : list (jstring * value (num rt)))
    (k : jstring) :
  lookup k (spread_into rt target (VObj ps))
  = match lookup k (rev ps) with
    | Some v => Some v
    | None => lookup k target
    end.
Proof. cbn [spread_into]. apply lookup_fold_define. Qed.

Lemma or_else_truthy (a b : value (num rt)) :
  truthy rt b = true -> truthy rt (or_else rt a b) = true.
Proof.
  intros H. unfold or_else. destruct (truthy rt a) eqn:E; [exact E | exact H].
Qed.

Lemma step_name_truthy s : truthy rt (VStr (step_name s)) = true.
Proof. destruct s; reflexivity. Qed.

Lemma createFallbackResponse_truthy userInput currentDraft recentSearches :
  let r := createFallbackResponse rt userInput currentDraft recentSearches in
  truthy rt (message rt r) = true /\ truthy rt (nextStep rt r) = true.
Proof.
  unfold createFallbackResponse. cbn [message nextStep].
  split; [|apply step_name_truthy].
  destruct (determineNextStep rt currentDraft); reflexivity.
Qed.

(** X17: processUserInput returns for every outcome of the request; the
    message and the next step of the response are truthy, and every
    property of the current draft is still defined in the returned
    draft. *)
Theorem processUserInput_returns (userInput : jstring)
    (conversationHistory : list (jstring * jstring))
    (currentDraft : list (jstring * value (num rt)))
    (recentSearches : list jstring) (llm : completion rt) :
  exists r,
    processUserInput rt userInput conversationHistory currentDraft
      recentSearches llm = inr r
    /\ truthy rt (message rt r) = true
    /\ truthy rt (nextStep rt r) = true
    /\ forall k, In k (map fst currentDraft) ->
                 In k (map fst (campaignDraft rt r)).
Proof.
  unfold processUserInput.
  destruct (process_response rt currentDraft llm) as [e|r] eqn:P;
    cbn [try_catch ret].
  - eexists. split; [reflexivity|].
    destruct (createFallbackResponse_truthy userInput currentDraft
                recentSearches) as [M N].
    split; [exact M|]. split; [exact N|]. intros k H. exact H.
  - exists r. split; [reflexivity|].
    unfold process_response in P.
    destruct (response_of rt llm) as [e|response]; [discriminate|].
    cbn [bind] in P.
    destruct (AiUtils.json_parse rt (cleanJsonResponse response))
      as [e|parsed]; [discriminate|]. cbn [bind] in P.
    destruct (is_nullish parsed) eqn:N.
    + destruct (OpenAIMore.get_prop_throws rt parsed (str "message") N)
        as [e E]. rewrite E in P. discriminate P.
    + rewrite !(OpenAIMore.get_prop_returns rt _ _ N) in P.
      cbn [bind ret] in P. injection P as <-.
      cbn [message nextStep campaignDraft].
      split; [apply or_else_truthy; reflexivity|].
      split; [apply or_else_truthy, step_name_truthy|].
      intros k H. apply lookup_defined, spread_into_keeps.
      cbn [spread_into]. rewrite lookup_fold_define.
      destruct (lookup k (rev currentDraft)) eqn:L; [discriminate|].
      exfalso. revert L. apply lookup_defined.
      rewrite map_rev. apply in_rev. rewrite rev_involutive. exact H.
Qed.

(** X18: the fallback response offers between one and four suggestions,
    all strings; when the audience is asked for and there are recent
    searches, they are the first four of them. *)
Theorem createFallbackResponse_suggestions (userInput : jstring)
    (currentDraft : list (jstring * value (num rt)))
    (recentSearches : list jstring) :
  exists l,
    suggestions rt
      (createFallbackResponse rt userInput currentDraft recentSearches)
    = VArr (map VStr l)
    /\ 1 <= length l <= 4
    /\ (determineNextStep rt currentDraft = Audience ->
        recentSearches <> [] -> l = firstn 4 recentSearches).
Proof.
  unfold createFallbackResponse. cbn [suggestions]. unfold strings.
  eexists. split; [reflexivity|].
  destruct (determineNextStep rt currentDraft);
    cbn [snd length]; try (split; [lia | intros H; discriminate H]).
  destruct recentSearches as [|a l].
  - cbn. split; [lia | intros _ H; contradiction].
  - cbn [length Nat.ltb Nat.leb]. split; [|reflexivity].
    rewrite length_firstn. cbn [length]. lia.
Qed.

(** X19: the stage named in the prompt and the next step are decided by
    the same tests: two drafts are at the same stage exactly when they
    have the same next step. *)
Theorem getConversationStage_determineNextStep
    (d1 d2 : list (jstring * value (num rt))) :
  getConversationStage rt d1 = getConversationStage rt d2
  <-> determineNextStep rt d1 = determineNextStep rt d2.
Proof.
  unfold getConversationStage, determineNextStep.
  destruct (truthy rt (draft_prop rt d1 (str "goal")));
    destruct (truthy rt (draft_prop rt d1 (str "targetAudience")));
    destruct (truthy rt (draft_prop rt d1 (str "tone")));
    destruct (truthy rt (draft_prop rt d1 (str "additionalContext")));
    destruct (truthy rt (draft_prop rt d2 (str "goal")));
    destruct (truthy rt (draft_prop rt d2 (str "targetAudience")));
    destruct (truthy rt (draft_prop rt d2 (str "tone")));
    destruct (truthy rt (draft_prop rt d2 (str "additionalContext")));
    cbn [negb]; split; intros H; try reflexivity;
    exfalso; vm_compute in H; discriminate H.
Qed.

Lemma indexed_length {A} (l : list A) : forall i, length (indexed i l) = length l.
Proof. induction l; intros i; simpl; [reflexivity | rewrite IHl; reflexivity]. Qed.

Lemma map_indexed_well_formed (f : nat * jstring -> OpenAI.EmailStep rt) l :
  (forall i x, OpenAI.well_formed_step rt i (f (i, x))) ->
  forall i, OpenAI.well_formed_steps rt i (map f (indexed i l)).
Proof.
  intros Hf. induction l as [|x l IH]; intros i; simpl; [exact I|].
  split; [apply Hf | apply IH].
Qed.

Lemma nth_error_indexed {A} (l : list A) :
  forall i k x, nth_error (indexed i l) k = Some x ->
                fst x = i + k.
Proof.
  induction l as [|y l IH]; intros i [|k] x H; simpl in H; try discriminate.
  - injection H as <-. simpl. lia.
  - apply IH in H. lia.
Qed.

Lemma createFallbackCampaign_steps (draft : CampaignDraft)
    (example : CampaignExample rt) :
  let c := createFallbackCampaign rt draft example in
  length (emailSteps rt c) = length (examples rt example)
  /\ OpenAI.well_formed_steps rt 0 (emailSteps rt c)
  /\ (forall k st, nth_error (emailSteps rt c) k = Some st ->
        OpenAI.delay rt st = VNum (num_of_nat rt (2 * k))).
Proof.
  unfold createFallbackCampaign. cbn [emailSteps].
  split; [rewrite length_map; apply indexed_length|].
  split.
  { apply map_indexed_well_formed. intros i x.
    unfold OpenAI.well_formed_step.
    cbn [OpenAI.id OpenAI.type OpenAI.delayUnit OpenAI.delay].
    split; [reflexivity|]. split; [auto|].
    split; [destruct (i =? 0); auto|].
    split; [intros ->; reflexivity | eexists; reflexivity]. }
  intros k st H. rewrite nth_error_map in H.
  destruct (nth_error (indexed 0 (examples rt example)) k) as [[i x]|] eqn:E;
    [|discriminate]. apply nth_error_indexed in E. simpl in E. subst i.
  injection H as <-. cbn [OpenAI.delay].
  destruct k; [reflexivity|]. cbn [Nat.eqb].
  rewrite (Nat.mul_comm (S k) 2). reflexivity.
Qed.

Lemma nth_error_indexed_value {A} (l : list A) :
  forall i k x, nth_error (indexed i l) k = Some x ->
                nth_error l k = Some (snd x).
Proof.
  induction l as [|y l IH]; intros i [|k] x H; simpl in H; try discriminate.
  - injection H as <-. reflexivity.
  - exact (IH _ _ _ H).
Qed.

(** X20: the fallback campaign has one email step per example of the
    guideline.  Step k (counted from 0) has id step-(k+1), type email, a
    subject made of the k-th example title in lower case, delay 2k and
    the unit immediately for the first step and business days for the
    others.  The name is the goal when that has at most 50 characters and
    otherwise its first 50 characters followed by three dots; the
    campaign goal is the goal and the type is that of the example. *)
Theorem createFallbackCampaign_shape (draft : CampaignDraft)
    (example : CampaignExample rt) :
  let c := createFallbackCampaign rt draft example in
  length (emailSteps rt c) = length (examples rt example)
  /\ OpenAI.well_formed_steps rt 0 (emailSteps rt c)
  /\ (forall k st, nth_error (emailSteps rt c) k = Some st ->
        OpenAI.id rt st = OpenAI.step_id k
        /\ OpenAI.type rt st = VStr (str "email")
        /\ OpenAI.delay rt st = VNum (num_of_nat rt (2 * k))
        /\ OpenAI.delayUnit rt st
           = VStr (if k =? 0 then str "immediately" else str "business days")
        /\ exists exampleTitle,
             nth_error (examples rt example) k = Some exampleTitle
             /\ OpenAI.subject rt st
                = VStr (str "{{First Name}}, " ++ toLowerCase rt exampleTitle))
  /\ field (campaignData rt c) (str "name")
     = VStr (if length (goal draft) <=? 50 then goal draft
             else firstn 50 (goal draft) ++ str "...")
  /\ field (campaignData rt c) (str "campaignGoal") = VStr (goal draft)
  /\ field (campaignData rt c) (str "type") = campaignType rt example.
Proof.
  destruct (createFallbackCampaign_steps draft example) as [L0 [W D]].
  cbn zeta. split; [exact L0|]. split; [exact W|]. split.
  { intros k st H. split; [|split; [|split; [exact (D k st H)|]]].
    - unfold createFallbackCampaign in H. cbn [emailSteps] in H.
      rewrite nth_error_map in H.
      destruct (nth_error (indexed 0 (examples rt example)) k)
        as [[i x]|] eqn:E; [|discriminate].
      apply nth_error_indexed in E. simpl in E. subst i.
      injection H as <-. reflexivity.
    - unfold createFallbackCampaign in H. cbn [emailSteps] in H.
      rewrite nth_error_map in H.
      destruct (nth_error (indexed 0 (examples rt example)) k)
        as [[i x]|]; [|discriminate].
      injection H as <-. reflexivity.
    - unfold createFallbackCampaign in H. cbn [emailSteps] in H.
      rewrite nth_error_map in H.
      destruct (nth_error (indexed 0 (examples rt example)) k)
        as [[i x]|] eqn:E; [|discriminate].
      pose proof (nth_error_indexed_value _ _ _ _ E) as V.
      apply nth_error_indexed in E. simpl in E, V. subst i.
      injection H as <-. cbn [OpenAI.delayUnit OpenAI.subject].
      split; [reflexivity|]. exists x. split; [exact V | reflexivity]. }
  unfold createFallbackCampaign. cbn [campaignData].
  split; [|split; reflexivity].
  change (field _ (str "name"))
    with (@VStr (num rt)
            (firstn 50 (goal draft)
             ++ (if 50 <? length (goal draft) then str "..." else []))).
  f_equal. rewrite Nat.ltb_antisym.
  destruct (Nat.leb_spec (length (goal draft)) 50) as [L|L]; cbn [negb].
  - rewrite app_nil_r. apply firstn_all2. exact L.
  - reflexivity.
Qed.

Lemma campaign_to_email_step_id step index st :
  to_email_step rt step index = inr st ->
  OpenAI.id rt st = OpenAI.step_id index
  /\ (index = 0 ->
      OpenAI.delay rt st = VNum (num_of_nat rt 0)
      /\ OpenAI.delayUnit rt st = VStr (str "immediately")).
Proof.
  unfold to_email_step. destruct (is_nullish step) eqn:N.
  - destruct (OpenAIMore.get_prop_throws rt step (str "type") N) as [e E].
    rewrite E. discriminate.
  - rewrite !(OpenAIMore.get_prop_returns rt _ _ N).
    destruct (Nat.eqb_spec index 0) as [I|I]; cbn [bind ret];
      intros H; injection H as <-;
      cbn [OpenAI.id OpenAI.delay OpenAI.delayUnit];
      (split; [reflexivity|]); [auto | intros I0; contradiction].
Qed.

Lemma mapM_index_numbered items :
  forall index steps,
    mapM_index (to_email_step rt) index items = inr steps ->
    OpenAI.well_numbered rt index steps
    /\ length steps = length items
    /\ (index = 0 -> OpenAI.starts_immediately rt steps).
Proof.
  induction items as [|x items IH]; intros index steps H; simpl in H.
  - injection H as <-. simpl. auto.
  - destruct (to_email_step rt x index) as [e|st] eqn:E;
      [discriminate|]. cbn [bind] in H.
    destruct (mapM_index (to_email_step rt) (S index) items) as [e|rest] eqn:R;
      [discriminate|]. cbn [bind ret] in H. injection H as <-.
    apply campaign_to_email_step_id in E. destruct E as [Hid H0].
    destruct (IH _ _ R) as [W [L _]]. simpl. auto.
Qed.

Lemma well_formed_numbered steps :
  forall index, OpenAI.well_formed_steps rt index steps ->
                OpenAI.well_numbered rt index steps.
Proof.
  induction steps as [|st steps IH]; intros index H; simpl in *; [exact I|].
  destruct H as [[Hid _] H]. auto.
Qed.

Section Examples.
Variable findCampaignExampleById : jstring -> option (CampaignExample rt).
Variable findCampaignExampleByGoal : jstring -> option (CampaignExample rt).

(** X21: whenever generateCampaignFromDraft returns a campaign, from the
    response or from the fallback, its steps are numbered step-1, step-2,
    ... in order and the first one has delay 0 and unit immediately. *)
Theorem generateCampaignFromDraft_numbered (draft : CampaignDraft)
    (llm : completion rt) (c : Campaign rt) :
  generateCampaignFromDraft rt findCampaignExampleById
    findCampaignExampleByGoal draft llm = inr c ->
  OpenAI.well_numbered rt 0 (emailSteps rt c)
  /\ OpenAI.starts_immediately rt (emailSteps rt c).
Proof.
  unfold generateCampaignFromDraft.
  destruct (find_example rt findCampaignExampleById
              findCampaignExampleByGoal draft) as [example|];
    [|discriminate].
  destruct (generate_campaign rt llm) as [e|c'] eqn:G; cbn [try_catch ret];
    intros H; injection H as <-.
  - destruct (createFallbackCampaign_steps draft example) as [_ [W D]].
    split; [apply well_formed_numbered; exact W|].
    unfold OpenAI.starts_immediately.
    destruct (emailSteps rt (createFallbackCampaign rt draft example))
      as [|st rest] eqn:S; [exact I|].
    split; [exact (D 0 st eq_refl)|].
    simpl in W. destruct W as [[_ [_ [_ [W0 _]]]] _]. exact (W0 eq_refl).
  - unfold generate_campaign in G.
    destruct (response_of rt llm) as [e|response]; [discriminate|].
    cbn [bind] in G.
    destruct (AiUtils.json_parse rt (cleanJsonResponse response))
      as [e|parsed]; [discriminate|]. cbn [bind] in G.
    destruct (get_prop parsed (str "emailSteps")) as [e|v]; [discriminate|].
    cbn [bind] in G.
    destruct (OpenAI.map_value rt (to_email_step rt) v) as [e|steps] eqn:M;
      [discriminate|]. cbn [bind] in G.
    destruct (get_prop parsed (str "campaignData")) as [e|d]; [discriminate|].
    cbn [bind ret] in G. injection G as <-. cbn [emailSteps].
    destruct v; try discriminate. cbn [OpenAI.map_value] in M.
    apply mapM_index_numbered in M. destruct M as [W [_ S]]. auto.
Qed.

End Examples.

End WithRuntime.

Lemma generateCampaignFromDraft_numbered_witness :
  OpenAI.well_numbered RefRuntime.runtime 0
    (emailSteps RefRuntime.runtime
       (createFallbackCampaign RefRuntime.runtime
          Samples.sample_campaign_draft Samples.sample_example))
  /\ OpenAI.starts_immediately RefRuntime.runtime
       (emailSteps RefRuntime.runtime
          (createFallbackCampaign RefRuntime.runtime
             Samples.sample_campaign_draft Samples.sample_example)).
Proof.
  apply (generateCampaignFromDraft_numbered RefRuntime.runtime
           (fun _ => None) (fun _ => Some Samples.sample_example)
           Samples.sample_campaign_draft (Content None)).
  reflexivity.
Defined.

End CampaignMore.

(** ** More on validateJsonStructure *)

Module ValidateFacts.
Import JobExtraction.

Section WithRuntime.
Variable rt : Runtime.

Lemma strings_of_strings (l : list jstring) :
  strings_of (map (@VStr (num rt)) l) = l.
Proof. induction l as [|s l IH]; simpl; [reflexivity | rewrite IH; reflexivity]. Qed.

Lemma string_or_undefined_optional (f : option jstring) :
  string_or_undefined (optional_field rt f) = f.
Proof. destruct f; reflexivity. Qed.

Lemma validate_value_of_job (d : ExtractedJobData) :
  In (employment_type d) employment_types ->
  validateJsonStructure rt (value_of_job rt d) = inr d.
Proof.
  intros H. apply JobExtractionFacts.existsb_jstring_eqb in H.
  unfold validateJsonStructure.
  change (get_prop (value_of_job rt d) (str "title"))
    with (@inr (exn (num rt)) _ (@VStr (num rt) (title d))).
  change (get_prop (value_of_job rt d) (str "description"))
    with (@inr (exn (num rt)) _ (@VStr (num rt) (description d))).
  change (get_prop (value_of_job rt d) (str "requirements"))
    with (@inr (exn (num rt)) _ (@VArr (num rt) (map VStr (requirements d)))).
  change (get_prop (value_of_job rt d) (str "location"))
    with (@inr (exn (num rt)) _ (@VStr (num rt) (location d))).
  change (get_prop (value_of_job rt d) (str "salary_range"))
    with (@inr (exn (num rt)) _ (optional_field rt (salary_range d))).
  change (get_prop (value_of_job rt d) (str "employment_type"))
    with (@inr (exn (num rt)) _ (@VStr (num rt) (employment_type d))).
  change (get_prop (value_of_job rt d) (str "company_name"))
    with (@inr (exn (num rt)) _ (optional_field rt (company_name d))).
  change (get_prop (value_of_job rt d) (str "reference_number"))
    with (@inr (exn (num rt)) _ (optional_field rt (reference_number d))).
  change (get_prop (value_of_job rt d) (str "shift_timings"))
    with (@inr (exn (num rt)) _ (optional_field rt (shift_timings d))).
  change (get_prop (value_of_job rt d) (str "apply_url"))
    with (@inr (exn (num rt)) _ (@VStr (num rt) (apply_url d))).
  cbn [bind ret string_or]. rewrite H, strings_of_strings.
  rewrite !string_or_undefined_optional. destruct d; reflexivity.
Qed.

(** X22: validateJsonStructure is a projection: validating the object it
    returned gives that object again, so every field already has its
    declared type and the employment type is one of the four allowed. *)
Theorem validateJsonStructure_idempotent (data : value (num rt))
    (d : ExtractedJobData) :
  validateJsonStructure rt data = inr d ->
  validateJsonStructure rt (value_of_job rt d) = inr d.
Proof.
  intros H. apply validate_value_of_job.
  unfold validateJsonStructure in H. destruct (is_nullish data) eqn:N.
  - destruct (OpenAIMore.get_prop_throws rt data (str "title") N) as [e E].
    rewrite E in H. discriminate H.
  - rewrite !(OpenAIMore.get_prop_returns rt _ _ N) in H.
    cbn [bind ret] in H. injection H as <-. cbn [employment_type].
    apply JobExtractionMore.employment_choice.
Qed.

End WithRuntime.

Lemma validateJsonStructure_idempotent_witness :
  exists d,
    validateJsonStructure RefRuntime.runtime (VObj []) = inr d
    /\ validateJsonStructure RefRuntime.runtime
         (value_of_job RefRuntime.runtime d) = inr d.
Proof.
  eexists. split; [reflexivity|].
  apply (validateJsonStructure_idempotent RefRuntime.runtime (VObj [])).
  reflexivity.
Defined.

End ValidateFacts.
